(** * ym-bot: the Yandex Music catalog client and the music service

    A shallow embedding of [internal/client/yandex] (client, DTO mapping,
    download-URL resolution, file helpers) and of [internal/services/music]
    (the orchestration service), with the properties the specification
    states about them.

    Go strings and byte slices are byte sequences: both are [string] here
    (a list of 8-bit characters).  Go's [int] is a [Z]; the only arithmetic
    the client performs on it is division, which is Go's truncated
    division, [Z.quot], and cannot overflow for the divisors used. *)

From stdpp Require Import base numbers option list strings gmap fin_maps pretty.
From Stdlib Require Import ZArith Ascii.

Local Open Scope Z_scope.

(** ** Errors

    The client builds every error with [fmt.Errorf]; errors coming out of
    the standard library (transport, decoders, the operating system) are
    passed through or wrapped with [%w]. *)

Inductive error : Type :=
| Errorf (msg : string)
    (* fmt.Errorf("<msg>") with a literal message *)
| StatusErrorf (what : string) (status : Z) (body : string)
    (* fmt.Errorf("<what> failed: status=%d body=%s", status, body) *)
| ResolveErrorf (status : Z)
    (* fmt.Errorf("cannot resolve download url: status=%d", status) *)
| Wrapf (context : string) (cause : error)
    (* fmt.Errorf("<context>: %w", cause) *)
| Foreign (msg : string).
    (* an error value produced by net/http, encoding/json, encoding/xml or os *)

Global Instance error_eq_dec : EqDecision error.
Proof. solve_decision. Defined.

Fixpoint Error (e : error) : string :=
  match e with
  | Errorf msg => msg
  | StatusErrorf what status body =>
      what +:+ " failed: status=" +:+ pretty status +:+ " body=" +:+ body
  | ResolveErrorf status =>
      "cannot resolve download url: status=" +:+ pretty status
  | Wrapf context cause => context +:+ ": " +:+ Error cause
  | Foreign msg => msg
  end.

Inductive result (A : Type) : Type :=
| Ok (a : A)
| Err (e : error).
Arguments Ok {A} a.
Arguments Err {A} e.

Definition is_Ok {A} (r : result A) : bool :=
  match r with Ok _ => true | Err _ => false end.

(** ** Strings *)

Module strings.

(** [strings.Join]: no element gives the empty string, one element gives
    that element, otherwise the separator is written between
    neighbours. *)
Fixpoint Join (elems : list string) (sep : string) : string :=
  match elems with
  | [] => ""
  | [e] => e
  | e :: rest => e +:+ sep +:+ Join rest sep
  end.

(** ASCII case folding of one byte, as the fast path of
    [strings.EqualFold] compares bytes. *)
Definition isUpper (c : ascii) : bool :=
  (65 <=? nat_of_ascii c)%nat && (nat_of_ascii c <=? 90)%nat.

Definition foldEq (sr tr : ascii) : bool :=
  if Ascii.eqb tr sr then true
  else
    let lo := if (nat_of_ascii tr <? nat_of_ascii sr)%nat then tr else sr in
    let hi := if (nat_of_ascii tr <? nat_of_ascii sr)%nat then sr else tr in
    isUpper lo && (nat_of_ascii hi =? nat_of_ascii lo + 32)%nat.

(** [strings.EqualFold], byte by byte, as its ASCII loop compares: two
    distinct bytes are equal only as an upper-case ASCII letter and its
    lower-case form.  The library leaves this loop for the Unicode one at
    the first byte that is not ASCII; the client folds against the
    literal mp3 only, and against m, p and 3 the Unicode loop answers
    false for such a byte (their simple-fold orbits are ASCII), as
    [foldEq] does. *)
Fixpoint EqualFold (s t : string) : bool :=
  match s, t with
  | "", "" => true
  | String sr s', String tr t' => foldEq sr tr && EqualFold s' t'
  | _, _ => false
  end%string.

(** [strings.ReplaceAll]: non-overlapping occurrences of a non-empty
    [old], left to right. *)
Fixpoint ReplaceAll_go (fuel : nat) (s old new : string) : string :=
  match fuel with
  | O => s
  | S fuel =>
      match s with
      | "" => ""
      | String c s' =>
          if String.prefix old s
          then new +:+ ReplaceAll_go fuel
                 (String.substring (String.length old)
                    (String.length s - String.length old) s) old new
          else String c (ReplaceAll_go fuel s' old new)
      end
  end%string.

Definition ReplaceAll (s old new : string) : string :=
  ReplaceAll_go (S (String.length s)) s old new.

End strings.

(** ** Wire format (DTOs) and the Track entity *)

Record artistDTO := { artist_Name : string }.

Record albumDTO := { album_Title : string }.

Definition albumListDTO := list albumDTO.

Definition albumListDTO_Title (a : albumListDTO) : string :=
  match a with
  | [] => ""
  | first :: _ => album_Title first
  end.

(** [trackDTO.ID] is a [json.Number], a string type holding the literal
    text of the number; its zero value (field absent or null in the
    payload) is the empty string, and [ID.String()] is the text itself. *)
Record trackDTO := {
  dto_ID : string;
  dto_Title : string;
  dto_DurationMs : Z;
  dto_Artists : list artistDTO;
  dto_Albums : albumListDTO;
  dto_CoverURI : string;
  dto_StorageDir : string;
  dto_RealID : string;
  dto_TrackShare : string;
  dto_Type : string
}.

Record downloadInfoDTO := {
  info_URL : string;
  info_Codec : string;
  info_Bitrate : Z
}.

Record Track := {
  ID : string;
  Title : string;
  Artists : list string;
  DurationSeconds : Z;
  CoverURL : string;
  AlbumTitle : string
}.

Definition downloadInfoDTO_zero : downloadInfoDTO :=
  {| info_URL := ""; info_Codec := ""; info_Bitrate := 0 |}.

(** [ArtistsString] renders joined artist names. *)
Definition ArtistsString (t : Track) : string :=
  match Artists t with
  | [] => ""
  | _ => strings.Join (Artists t) ", "
  end.

(** The loop of [mapTrack] that collects the artist names: [acc] is the
    slice built so far, each non-empty name is appended to it. *)
Fixpoint collectArtists (acc : list string) (artists : list artistDTO)
  : list string :=
  match artists with
  | [] => acc
  | a :: rest =>
      if decide (artist_Name a = "")
      then collectArtists acc rest
      else collectArtists (acc ++ [artist_Name a]) rest
  end.

(** [mapTrack] converts the API model to the internal Track. *)
Definition mapTrack (t : trackDTO) : Track :=
  let artists := collectArtists [] (dto_Artists t) in
  let cover :=
    if decide (dto_CoverURI t = "") then ""
    else "https://" +:+ strings.ReplaceAll (dto_CoverURI t) "%%" "200x200" in
  {| ID := dto_ID t;
     Title := dto_Title t;
     Artists := artists;
     DurationSeconds := dto_DurationMs t `quot` 1000;
     CoverURL := cover;
     AlbumTitle := albumListDTO_Title (dto_Albums t) |}.

(** [pickDownloadInfo] chooses the best available download info (prefer
    mp3): the [for range] loop returns at the first entry whose codec
    folds to mp3, and the statement after the loop returns the first
    entry. *)
Fixpoint pickDownloadInfo_loop (items : list downloadInfoDTO)
  : option downloadInfoDTO :=
  match items with
  | [] => None
  | i :: rest =>
      if strings.EqualFold (info_Codec i) "mp3" then Some i
      else pickDownloadInfo_loop rest
  end.

Definition pickDownloadInfo (items : list downloadInfoDTO) : downloadInfoDTO :=
  match items with
  | [] => downloadInfoDTO_zero
  | first :: _ =>
      match pickDownloadInfo_loop items with
      | Some i => i
      | None => first
      end
  end.

(** ** Paths and the file system

    The service only handles absolute paths: [os.MkdirTemp] joins its
    directory onto [os.TempDir()].  A cleaned absolute path is the list of
    its components, the root being the empty list. *)

Abbreviation path := (list string).

Module filepath.

(** The components of a slash-separated string, empty ones included. *)
Fixpoint split (s : string) : list string :=
  match s with
  | "" => [""]
  | String c s' =>
      let rest := split s' in
      if Ascii.eqb c "/" then "" :: rest
      else match rest with
           | [] => [String c ""]
           | first :: others => String c first :: others
           end
  end%string.

(** One step of [filepath.Clean] on a rooted path: empty and [.]
    elements are dropped, [..] removes the last component (and is
    dropped at the root), any other element is appended. *)
Definition cleanStep (acc : path) (elem : string) : path :=
  if decide (elem = "") then acc
  else if decide (elem = ".") then acc
  else if decide (elem = "..") then removelast acc
  else acc ++ [elem].

(** [filepath.Join(dir, elem)] for a cleaned absolute [dir]:
    [Clean(dir + "/" + elem)]. *)
Definition Join (dir : path) (elem : string) : path :=
  fold_left cleanStep (split elem) dir.

(** [filepath.Dir]: all but the last component; the root is its own
    directory. *)
Definition Dir (p : path) : path := removelast p.

(** [filepath.Base] of a cleaned absolute path. *)
Definition Base (p : path) : string := List.last p "/".

(** The path as the string Go holds. *)
Definition String (p : path) : string :=
  match p with
  | [] => "/"
  | _ => "/" +:+ strings.Join p "/"
  end.

End filepath.

Inductive node : Type :=
| NDir
| NFile (content : string).

Global Instance node_eq_dec : EqDecision node.
Proof. solve_decision. Defined.

Module os.

Definition ErrExist : error := Foreign "file exists".
Definition ErrNotExist : error := Foreign "no such file or directory".
Definition ErrNotDir : error := Foreign "not a directory".
Definition ErrIsDir : error := Foreign "is a directory".
Definition ErrInvalid : error := Foreign "invalid argument".
Definition ErrNameTooLong : error := Foreign "file name too long".

Definition isDir (fs : gmap path node) (p : path) : bool :=
  match p with
  | [] => true
  | _ => bool_decide (fs !! p = Some NDir)
  end.

(** [os.Mkdir]: the parent must be a directory and the name free. *)
Definition Mkdir (p : path) (fs : gmap path node) : result (gmap path node) :=
  match p with
  | [] => Err ErrExist
  | _ =>
      match fs !! p with
      | Some _ => Err ErrExist
      | None =>
          if isDir fs (filepath.Dir p) then Ok (<[p := NDir]> fs)
          else Err ErrNotExist
      end
  end.

(** [os.MkdirAll]: every missing directory on the way down is created;
    a file on the way is an error. *)
Fixpoint MkdirAll_go (above : path) (below : list string)
    (fs : gmap path node) : result (gmap path node) :=
  match below with
  | [] => Ok fs
  | c :: rest =>
      let p := above ++ [c] in
      match fs !! p with
      | Some (NFile _) => Err ErrNotDir
      | Some NDir => MkdirAll_go p rest fs
      | None => MkdirAll_go p rest (<[p := NDir]> fs)
      end
  end.

Definition MkdirAll (p : path) (fs : gmap path node)
  : result (gmap path node) :=
  MkdirAll_go [] p fs.

(** What opening a file refuses whatever the file system holds: a path
    with a NUL byte ([syscall.Open] returns EINVAL before the system
    call), a path of more than 4095 bytes (PATH_MAX) and a component of
    more than 255 bytes (NAME_MAX). *)
Definition nameError (p : path) : option error :=
  if decide (Exists (λ c, "000"%char ∈ String.list_ascii_of_string c) p)
  then Some ErrInvalid
  else if decide (4095 < String.length (filepath.String p))%nat
  then Some ErrNameTooLong
  else if decide (Exists (λ c, (255 < String.length c)%nat) p)
  then Some ErrNameTooLong
  else None.

(** [os.Create]: creates or truncates the file; the name must be one the
    system accepts, the parent must be a directory and the path must not
    be one. *)
Definition Create (p : path) (fs : gmap path node)
  : result (gmap path node) :=
  match p with
  | [] => Err ErrIsDir
  | _ =>
      match nameError p with
      | Some e => Err e
      | None =>
          if isDir fs (filepath.Dir p) then
            match fs !! p with
            | Some NDir => Err ErrIsDir
            | _ => Ok (<[p := NFile ""]> fs)
            end
          else Err ErrNotExist
      end
  end.

(** Writing to an open file appends to its content. *)
Definition Write (p : path) (data : string) (fs : gmap path node)
  : gmap path node :=
  match fs !! p with
  | Some (NFile old) => <[p := NFile (old +:+ data)]> fs
  | _ => fs
  end.

(** [os.RemoveAll]: the path and everything below it. *)
Definition RemoveAll (p : path) (fs : gmap path node) : gmap path node :=
  filter (λ entry, ¬ p `prefix_of` entry.1) fs.

(** The loop of [os.MkdirTemp(dir, "ym-bot-*")]: a name is drawn, and
    drawn again while it exists, at most 10000 times; [draws] counts the
    draws taken from the random source [rand]. *)
Fixpoint MkdirTemp_go (tries : nat) (rand : nat → N) (dir : path)
    (prefix : string) (draws : nat) (fs : gmap path node)
  : result path * nat * gmap path node :=
  let name := dir ++ [prefix +:+ pretty (rand draws)] in
  match Mkdir name fs with
  | Ok fs' => (Ok name, S draws, fs')
  | Err e =>
      if decide (e = ErrExist) then
        match tries with
        | O => (Err ErrExist, S draws, fs)
        | S tries' => MkdirTemp_go tries' rand dir prefix (S draws) fs
        end
      else (Err e, S draws, fs)
  end.

End os.

(** ** HTTP messages *)

Record Request := {
  req_URL : string;
  req_Header : gmap string string
}.

(** A response body is a stream: [body_bytes] are delivered, then the
    stream ends, with a read error when [body_err] is set. *)
Record Body := {
  body_bytes : string;
  body_err : option error
}.

(** [resp_Request] is [resp.Request.URL.String()], present when neither
    pointer is nil: the URL of the last request after redirects. *)
Record Response := {
  StatusCode : Z;
  Header : gmap string string;
  resp_Body : Body;
  resp_Request : option string
}.

Definition set_StatusCode (status : Z) (resp : Response) : Response :=
  {| StatusCode := status; Header := Header resp;
     resp_Body := resp_Body resp; resp_Request := resp_Request resp |}.

Definition Header_Get (h : gmap string string) (key : string) : string :=
  default "" (h !! key).

Definition Header_Set (h : gmap string string) (key value : string)
  : gmap string string :=
  <[key := value]> h.

(** [io.ReadAll(io.LimitReader(body, n))] with the error dropped: the
    first [n] bytes of what the stream delivers. *)
Definition ReadAllLimit (b : Body) (n : nat) : string :=
  String.substring 0 n (body_bytes b).

Record searchResponse := { search_Results : list trackDTO }.
  (* payload.Result.Tracks.Results *)
Record trackResponse := { track_Result : list trackDTO }.
Record downloadInfoResponse := { download_Result : list downloadInfoDTO }.

Record xmlInfo := {
  xml_Host : string;
  xml_Path : string;
  xml_TS : string;
  xml_S : string;
  xml_Region : string
}.

(** ** The standard library the client calls

    Decoders, URL parsing and escaping, the Unicode side of
    [strings.TrimSpace], the temporary directory and the random source are
    Go's, not this repository's: the client is modelled over any
    implementation of them. *)

Class GoLib := {
  (* url.Parse, as http.NewRequestWithContext calls it: the error, if any *)
  url_Parse_error : string → option error;
  (* url.QueryEscape, applied by url.Values.Encode *)
  url_QueryEscape : string → string;
  (* json.NewDecoder(body).Decode(&payload) at the three payload types *)
  json_Decode_search : Body → result searchResponse;
  json_Decode_track : Body → result trackResponse;
  json_Decode_downloadInfo : Body → result downloadInfoResponse;
  (* json.Unmarshal(body, &struct{ Src string }): the Src field *)
  json_Unmarshal_src : string → result string;
  (* xml.Unmarshal(data, &xmlInfo) *)
  xml_Unmarshal : string → result xmlInfo;
  (* strings.TrimFunc(s, unicode.IsSpace), strings.TrimRightFunc(s, unicode.IsSpace) *)
  TrimFunc_IsSpace : string → string;
  TrimRightFunc_IsSpace : string → string;
  (* os.TempDir() *)
  os_TempDir : path;
  (* the random source of os.MkdirTemp *)
  runtime_rand : nat → N
}.

(** The ASCII white space of package strings: tab, newline, vertical
    tab, form feed, carriage return, space. *)
Definition asciiSpace (c : ascii) : bool :=
  match nat_of_ascii c with
  | 9 | 10 | 11 | 12 | 13 | 32 => true
  | _ => false
  end%nat.

Definition nonASCII (c : ascii) : bool := (128 <=? nat_of_ascii c)%nat.

(** The second loop of [strings.TrimSpace], from the end of [s[start:]],
    given reversed. *)
Fixpoint TrimSpace_stop `{GoLib} (reversed : string) : string :=
  match reversed with
  | "" => ""
  | String c before =>
      if nonASCII c then TrimRightFunc_IsSpace (String.rev reversed)
      else if asciiSpace c then TrimSpace_stop before
      else String.rev reversed
  end%string.

(** [strings.TrimSpace]: the ASCII fast path is the library's two loops;
    at the first byte that is not ASCII what is left is handed to the
    Unicode-aware trimming. *)
Fixpoint TrimSpace `{GoLib} (s : string) : string :=
  match s with
  | "" => ""
  | String c s' =>
      if nonASCII c then TrimFunc_IsSpace s
      else if asciiSpace c then TrimSpace s'
      else TrimSpace_stop (String.rev s)
  end%string.

(** ** The world the client acts on

    [sent] is the log of requests handed to the HTTP client, oldest first;
    [fs] the file system; [draws] the number of random names drawn. *)

Record World := {
  sent : list Request;
  fs : gmap path node;
  draws : nat
}.

Definition set_sent (l : list Request) (w : World) : World :=
  {| sent := l; fs := fs w; draws := draws w |}.

Definition set_fs (m : gmap path node) (w : World) : World :=
  {| sent := sent w; fs := m; draws := draws w |}.

(** A computation returns a value or an error and the world it leaves. *)
Definition M (A : Type) : Type := World → result A * World.

Global Instance M_ret : MRet M := λ A a w, (Ok a, w).

Global Instance M_bind : MBind M := λ A B f m w,
  match m w with
  | (Ok a, w') => f a w'
  | (Err e, w') => (Err e, w')
  end.

Definition throw {A} (e : error) : M A := λ w, (Err e, w).

Definition lift {A} (r : result A) : M A := λ w, (r, w).

(** [HTTPClient] wraps the stdlib client: [Do] answers a request given the
    requests sent before it. *)
Class HTTPClient := Do : list Request → Request → result Response.

Record APIClient := {
  httpClient : HTTPClient;
  token : string
}.

Definition apiBase : string := "https://api.music.yandex.net".
Definition userAgent : string :=
  "ym-bot/0.1 (+github.com/ndrewnee/go-yandex-music compatible)".

(** [c.httpClient.Do(req)]: the request is logged, the client answers. *)
Definition httpClient_Do (c : APIClient) (req : Request) : M Response :=
  λ w, (@Do (httpClient c) (sent w) req, set_sent (sent w ++ [req]) w).

(** ** The catalog client *)

Section client.
Context `{GoLib}.

(** [http.NewRequestWithContext(ctx, http.MethodGet, url, nil)]. *)
Definition NewRequest (url : string) : result Request :=
  match url_Parse_error url with
  | Some e => Err e
  | None => Ok {| req_URL := url; req_Header := ∅ |}
  end.

Definition attachHeaders (c : APIClient) (req : Request) : Request :=
  let h := Header_Set (req_Header req) "User-Agent" userAgent in
  let h :=
    if decide (token c ≠ "")
    then Header_Set h "Authorization" ("OAuth " +:+ token c)
    else h in
  {| req_URL := req_URL req; req_Header := h |}.

(** The non-200 branch shared by the four operations:
    [fmt.Errorf("<what> failed: status=%d body=%s", ...)] over at most
    4KB of the body. *)
Definition statusError (what : string) (resp : Response) : error :=
  StatusErrorf what (StatusCode resp)
    (ReadAllLimit (resp_Body resp) (N.to_nat 4096)).

(** The search URL: [url.Values.Encode] writes the keys in sorted order
    and escapes the values; only the query text has bytes to escape. *)
Definition searchURL (query : string) (page : Z) : string :=
  apiBase +:+ "/search?nococrrect=true&page=" +:+ pretty page
    +:+ "&text=" +:+ url_QueryEscape query +:+ "&type=track".

(** The loop of [SearchTracks] over the page: [i] is the index of the
    entry at the head of [results]. *)
Fixpoint SearchTracks_loop (limit i : Z) (results : list trackDTO)
    (tracks : list Track) : list Track :=
  match results with
  | [] => tracks
  | t :: rest =>
      if decide (i >= limit) then tracks
      else SearchTracks_loop limit (i + 1) rest (tracks ++ [mapTrack t])
  end.

(** [SearchTracks] queries the search API for tracks. *)
Definition SearchTracks (c : APIClient) (query : string) (limit offset : Z)
  : M (list Track) :=
  if decide (TrimSpace query = "") then throw (Errorf "query is empty")
  else
    let limit := if decide (limit <= 0) then 10 else limit in
    let offset := if decide (offset < 0) then 0 else offset in
    let page := offset `quot` limit in
    req ← lift (NewRequest (searchURL query page));
    let req := attachHeaders c req in
    resp ← httpClient_Do c req;
    if decide (StatusCode resp ≠ 200) then throw (statusError "search" resp)
    else
      match json_Decode_search (resp_Body resp) with
      | Err e => throw (Wrapf "decode search response" e)
      | Ok payload =>
          mret (SearchTracks_loop limit 0 (search_Results payload) [])
      end.

(** [GetTrack] fetches detailed track metadata by id. *)
Definition GetTrack (c : APIClient) (id : string) : M Track :=
  if decide (id = "") then throw (Errorf "track id is empty")
  else
    req ← lift (NewRequest (apiBase +:+ "/tracks/" +:+ id));
    let req := attachHeaders c req in
    resp ← httpClient_Do c req;
    if decide (StatusCode resp ≠ 200)
    then throw (statusError "get track" resp)
    else
      match json_Decode_track (resp_Body resp) with
      | Err e => throw (Wrapf "decode track response" e)
      | Ok payload =>
          match track_Result payload with
          | [] => throw (Errorf "track not found")
          | first :: _ => mret (mapTrack first)
          end
      end.

(** [parseDownloadInfoXML] builds the final mp3 URL from the XML
    payload. *)
Definition parseDownloadInfoXML (data trackID : string) : result string :=
  if decide (data = "") then Err (Errorf "empty xml body")
  else
    match xml_Unmarshal data with
    | Err e => Err e
    | Ok info =>
        if decide (xml_Host info = "" ∨ xml_Path info = ""
                   ∨ xml_TS info = "" ∨ xml_S info = "")
        then Err (Errorf "incomplete xml fields")
        else
          let final :=
            "https://" +:+ xml_Host info +:+ "/get-mp3/" +:+ xml_S info
              +:+ "/" +:+ xml_TS info +:+ xml_Path info in
          let final :=
            if decide (trackID ≠ "")
            then (final +:+ "?track-id=") +:+ trackID
            else final in
          Ok final
    end.

(** The tail of [resolveDownloadInfoURL], once neither decoding gave a
    URL: the Location header, then the URL of the final request. *)
Definition redirectTarget (resp : Response) : result string :=
  let loc := Header_Get (Header resp) "Location" in
  if decide (loc ≠ "") then Ok loc
  else
    match resp_Request resp with
    | Some u => Ok u
    | None => Err (ResolveErrorf (StatusCode resp))
    end.

(** What [resolveDownloadInfoURL] does with the response it received:
    the body is read once, at most 8KB of it, and both decoders are
    given these bytes. *)
Definition resolveResponse (resp : Response) (trackID : string)
  : result string :=
  let body := ReadAllLimit (resp_Body resp) (N.to_nat 8192) in
  (* First, try JSON payload with "src". *)
  let payload_Src :=
    if decide (body ≠ "") then
      match json_Unmarshal_src body with
      | Ok src => if decide (src ≠ "") then Some src else None
      | Err _ => None
      end
    else None in
  match payload_Src with
  | Some src => Ok src
  | None =>
      (* Try XML response with host/path/ts/s. *)
      match parseDownloadInfoXML body trackID with
      | Ok xmlURL =>
          if decide (xmlURL ≠ "") then Ok xmlURL else redirectTarget resp
      | Err _ => redirectTarget resp
      end
  end.

(** [resolveDownloadInfoURL] fetches downloadInfoUrl and extracts the
    final audio URL. *)
Definition resolveDownloadInfoURL (c : APIClient) (infoURL trackID : string)
  : M string :=
  if decide (infoURL = "") then throw (Errorf "download info url is empty")
  else
    req ← lift (NewRequest infoURL);
    let req := attachHeaders c req in
    resp ← httpClient_Do c req;
    lift (resolveResponse resp trackID).

(** [GetDownloadURL] resolves a track id to a downloadable URL. *)
Definition GetDownloadURL (c : APIClient) (id : string) : M string :=
  if decide (id = "") then throw (Errorf "track id is empty")
  else
    req ← lift (NewRequest (apiBase +:+ "/tracks/" +:+ id +:+ "/download-info"));
    let req := attachHeaders c req in
    resp ← httpClient_Do c req;
    if decide (StatusCode resp ≠ 200)
    then throw (statusError "download-info" resp)
    else
      match json_Decode_downloadInfo (resp_Body resp) with
      | Err e => throw (Wrapf "decode download-info" e)
      | Ok payload =>
          match download_Result payload with
          | [] => throw (Errorf "download url not found")
          | _ =>
              let info := pickDownloadInfo (download_Result payload) in
              if decide (info_URL info = "")
              then throw (Errorf "download url not found")
              else resolveDownloadInfoURL c (info_URL info) id
          end
      end.

(** [ensureDir] creates a directory if missing. *)
Definition ensureDir (dir : path) : M unit :=
  if decide (filepath.String dir = "" ∨ filepath.String dir = ".")
  then mret tt
  else λ w,
    match os.MkdirAll dir (fs w) with
    | Ok fs' => (Ok tt, set_fs fs' w)
    | Err e => (Err e, w)
    end.

(** [createFile] creates/truncates a file ensuring the parent directory
    exists; the open file is named by its path. *)
Definition createFile (p : path) : M path :=
  λ w,
    match ensureDir (filepath.Dir p) w with
    | (Err e, w') => (Err (Wrapf "ensure dir" e), w')
    | (Ok _, w') =>
        match os.Create p (fs w') with
        | Ok fs' => (Ok p, set_fs fs' w')
        | Err e => (Err e, w')
        end
    end.

(** [io.Copy(out, resp.Body)]: what the stream delivers is written, then
    its read error, if any, is returned. *)
Definition io_Copy (out : path) (body : Body) : M unit :=
  λ w,
    let w' := set_fs (os.Write out (body_bytes body) (fs w)) w in
    match body_err body with
    | Some e => (Err e, w')
    | None => (Ok tt, w')
    end.

(** [DownloadToFile] streams the content into destPath. *)
Definition DownloadToFile (c : APIClient) (downloadURL : string)
    (destPath : path) : M unit :=
  if decide (downloadURL = "") then throw (Errorf "download url is empty")
  else
    req ← lift (NewRequest downloadURL);
    let req := attachHeaders c req in
    resp ← httpClient_Do c req;
    if decide (StatusCode resp ≠ 200)
    then throw (statusError "download" resp)
    else
      let tmpDir := filepath.Dir destPath in
      _ ← ensureDir tmpDir;
      out ← createFile destPath;
      io_Copy out (resp_Body resp).

End client.

(** The client has one untyped error value per guard at the entry of an
    operation; these are the errors the specification classes as
    ValidationError. *)
Definition ValidationError (e : error) : Prop :=
  e ∈ [Errorf "query is empty"; Errorf "track id is empty";
       Errorf "download url is empty"].

(** ** The music service *)

(** [Client] describes the operations the service layer relies on. *)
Module Client.
Record t := {
  SearchTracks : string → Z → Z → M (list Track);
  GetTrack : string → M Track;
  GetDownloadURL : string → M string;
  DownloadToFile : string → path → M unit
}.
End Client.

(** [APIClient] implements [Client]. *)
Definition APIClient_Client `{GoLib} (c : APIClient) : Client.t :=
  {| Client.SearchTracks := SearchTracks c;
     Client.GetTrack := GetTrack c;
     Client.GetDownloadURL := GetDownloadURL c;
     Client.DownloadToFile := DownloadToFile c |}.

Record Service := { client : Client.t }.

Section service.
Context `{GoLib}.

(** [os.MkdirTemp("", pattern)] with the pattern's prefix; the suffix of
    ["ym-bot-*"] is empty. *)
Definition MkdirTemp (prefix : string) : M path :=
  λ w,
    let '(r, d, fs') :=
      os.MkdirTemp_go (N.to_nat 9999) runtime_rand os_TempDir prefix (draws w) (fs w) in
    (r, {| sent := sent w; fs := fs'; draws := d |}).

(** [fmt.Errorf("<context>: %w", err)] on the error path of a call. *)
Definition wrap {A} (context : string) (m : M A) : M A :=
  λ w,
    match m w with
    | (Ok a, w') => (Ok a, w')
    | (Err e, w') => (Err (Wrapf context e), w')
    end.

(** [Search] proxies the query to the client. *)
Definition Search (s : Service) (query : string) (limit offset : Z)
  : M (list Track) :=
  Client.SearchTracks (client s) query limit offset.

(** [StreamURL] returns track meta and a direct URL. *)
Definition StreamURL (s : Service) (id : string) : M (Track * string) :=
  meta ← wrap "get track meta" (Client.GetTrack (client s) id);
  downloadURL ← wrap "get download url" (Client.GetDownloadURL (client s) id);
  mret (meta, downloadURL).

(** [DownloadTrack] downloads the audio file for the given track id
    into a temp file.  Returns track meta and the local file path that
    the caller must remove. *)
Definition DownloadTrack (s : Service) (id : string) : M (Track * path) :=
  meta ← wrap "get track meta" (Client.GetTrack (client s) id);
  downloadURL ← wrap "get download url" (Client.GetDownloadURL (client s) id);
  tmpDir ← wrap "temp dir" (MkdirTemp "ym-bot-");
  let filename := ArtistsString meta +:+ " - " +:+ Title meta +:+ ".mp3" in
  let dest := filepath.Join tmpDir filename in
  (λ w,
    match Client.DownloadToFile (client s) downloadURL dest w with
    | (Err e, w') =>
        (Err (Wrapf "download" e), set_fs (os.RemoveAll tmpDir (fs w')) w')
    | (Ok _, w') => (Ok (meta, dest), w')
    end) : M (Track * path).

End service.

(** ** Test doubles

    A table-driven standard library and transport, on which the
    definitions above can be run: a decoder answers with the entry its
    table holds for the bytes, the transport with the response its table
    holds for the URL. *)

Module Fixture.

Definition lookup {A} (table : list (string * A)) (key : string) : option A :=
  snd <$> List.find (λ entry, bool_decide (entry.1 = key)) table.

Definition decode {A} (table : list (string * A)) (bytes : string) : result A :=
  match lookup table bytes with
  | Some a => Ok a
  | None => Err (Foreign "unexpected end of input")
  end.

Definition lib
    (search : list (string * list trackDTO))
    (track : list (string * list trackDTO))
    (info : list (string * list downloadInfoDTO))
    (src : list (string * string))
    (xml : list (string * xmlInfo)) : GoLib :=
  {| url_Parse_error := λ _, None;
     url_QueryEscape := λ s, s;
     json_Decode_search := λ b,
       match decode search (body_bytes b) with
       | Ok l => Ok {| search_Results := l |}
       | Err e => Err e
       end;
     json_Decode_track := λ b,
       match decode track (body_bytes b) with
       | Ok l => Ok {| track_Result := l |}
       | Err e => Err e
       end;
     json_Decode_downloadInfo := λ b,
       match decode info (body_bytes b) with
       | Ok l => Ok {| download_Result := l |}
       | Err e => Err e
       end;
     json_Unmarshal_src := decode src;
     xml_Unmarshal := decode xml;
     TrimFunc_IsSpace := λ s, s;
     TrimRightFunc_IsSpace := λ s, s;
     os_TempDir := ["tmp"];
     runtime_rand := N.of_nat |}.

Definition respond (status : Z) (bytes : string) : Response :=
  {| StatusCode := status; Header := ∅;
     resp_Body := {| body_bytes := bytes; body_err := None |};
     resp_Request := None |}.

Definition transport (table : list (string * Response)) : HTTPClient :=
  λ _ req,
    match lookup table (req_URL req) with
    | Some resp => Ok resp
    | None => Err (Foreign "connection refused")
    end.

Definition api (table : list (string * Response)) : APIClient :=
  {| httpClient := transport table; token := "" |}.

(** A world with nothing sent and an empty temporary directory. *)
Definition world : World :=
  {| sent := []; fs := {[ ["tmp"] := NDir ]}; draws := 0 |}.

Definition dto (id title : string) (ms : Z) (artists : list string)
  : trackDTO :=
  {| dto_ID := id; dto_Title := title; dto_DurationMs := ms;
     dto_Artists := (λ n, {| artist_Name := n |}) <$> artists;
     dto_Albums := []; dto_CoverURI := ""; dto_StorageDir := "";
     dto_RealID := ""; dto_TrackShare := ""; dto_Type := "" |}.

Definition codec (name url : string) : downloadInfoDTO :=
  {| info_URL := url; info_Codec := name; info_Bitrate := 192 |}.

Definition signed : xmlInfo :=
  {| xml_Host := "h"; xml_Path := "/p"; xml_TS := "123";
     xml_S := "sig"; xml_Region := "" |}.

(** A library for which the bytes [both] decode as JSON with src A and
    as XML with the four fields as well, and [signed] as XML only. *)
Definition ambiguous : GoLib :=
  lib [] [] [] [("both", "A")] [("both", signed); ("signed", signed)].

(** One track served end to end: metadata, download-info, the
    indirection answered in the JSON shape, the audio bytes. *)
Definition catalog (t : trackDTO) : GoLib :=
  lib [("page", [t])] [("meta", [t])]
      [("info", [codec "mp3" "https://storage/info"])]
      [("json", "https://cdn/audio.mp3")]
      [("xml", signed)].

Definition server (id : string) (audio : Response) : APIClient :=
  api [(apiBase +:+ "/tracks/" +:+ id, respond 200 "meta");
       (apiBase +:+ "/tracks/" +:+ id +:+ "/download-info", respond 200 "info");
       ("https://storage/info", respond 200 "json");
       ("https://cdn/audio.mp3", audio)].

(** The search endpoint answering page 2 of the query abc. *)
Definition searching : APIClient :=
  api [(apiBase +:+ "/search?nococrrect=true&page=2&text=abc&type=track",
        respond 200 "page")].

(** Tracks whose metadata holds a path separator. *)
Definition acdc : trackDTO := dto "42" "Thunderstruck" 292000 ["AC/DC"].
Definition dotted : trackDTO := dto "43" "/../../x" 1000 ["A"].

(** The service over the client that serves [t] under [id]. *)
Definition service (t : trackDTO) (id : string) (audio : Response) : Service :=
  {| client := @APIClient_Client (catalog t) (server id audio) |}.

End Fixture.

(** ** Configuration

    [config.Load] reads three variables of the process environment;
    [os.Getenv] answers the empty string for a variable that is not
    set. *)

Class Environ := Getenv : string → string.

Module config.

Record Config := {
  TelegramToken : string;
  YandexToken : string;
  LogLevel : string
}.

(** [Load] reads configuration from the environment.  The configuration
    is returned on the error path too. *)
Definition Load `{GoLib} `{Environ} : Config * option error :=
  let cfg :=
    {| TelegramToken := TrimSpace (Getenv "TELEGRAM_TOKEN");
       YandexToken := TrimSpace (Getenv "YANDEX_TOKEN");
       LogLevel := TrimSpace (Getenv "LOG_LEVEL") |} in
  let cfg :=
    if decide (LogLevel cfg = "")
    then {| TelegramToken := TelegramToken cfg;
            YandexToken := YandexToken cfg;
            LogLevel := "info" |}
    else cfg in
  if decide (TelegramToken cfg = "")
  then (cfg, Some (Errorf "TELEGRAM_TOKEN is not set"))
  else (cfg, None).

End config.

(** ** The Telegram transport

    Of the bot API's messages the handlers set the fields below; what
    the handlers log is left out.  [Call] is [api.Request] and
    [api.Send]: it answers a message given the messages sent before. *)

Class Strconv := Atoi : string → result Z.

(** Go's [int] is 64 bits wide on the platforms the bot is built for; a
    sum that leaves the range wraps around. *)
Definition int_wrap (z : Z) : Z := (z + 2 ^ 63) `mod` 2 ^ 64 - 2 ^ 63.

Module telegram.

Definition callbackPrefix : string := "download:".
Definition searchLimit : Z := 10.

Record InlineQuery := {
  iq_ID : string;
  iq_Query : string;
  iq_Offset : string
}.

(** [cb_Chat] is [cb.Message.Chat.ID] when message and chat are
    present, [cb_From] is [cb.From.ID]. *)
Record CallbackQuery := {
  cb_ID : string;
  cb_Data : string;
  cb_Chat : option Z;
  cb_From : Z
}.

Record InlineQueryResultAudio := {
  audio_ID : string;
  audio_URL : string;
  audio_Title : string;
  audio_Performer : string;
  audio_Caption : string
}.

Inductive Chattable : Type :=
| InlineConfig (InlineQueryID : string)
    (Results : list InlineQueryResultAudio) (NextOffset : string)
    (* IsPersonal: true, CacheTime: 0 *)
| CallbackConfig (CallbackQueryID text : string) (ShowAlert : bool)
| AudioConfig (ChatID : Z) (File : path) (Duration : Z)
    (Performer Title Caption : string).

Class BotAPI := Call : list Chattable → Chattable → result unit.

Record Bot := {
  api : BotAPI;
  musicService : Service
}.

(** The state a handler acts on: the world of the service and the log of
    the messages handed to the bot API, oldest first. *)
Record Chat := {
  world : World;
  told : list Chattable
}.

Definition set_world (w : World) (ch : Chat) : Chat :=
  {| world := w; told := told ch |}.

(** [b.api.Request(c)] and [b.api.Send(c)]. *)
Definition api_Call (b : Bot) (c : Chattable) (ch : Chat) : result unit * Chat :=
  (@Call (api b) (told ch) c, {| world := world ch; told := told ch ++ [c] |}).

Definition HasPrefix (s prefix : string) : bool := String.prefix prefix s.

Definition TrimPrefix (s prefix : string) : string :=
  if HasPrefix s prefix
  then String.substring (String.length prefix)
         (String.length s - String.length prefix) s
  else s.

Section handlers.
Context `{GoLib} `{Strconv}.

(** The loop of [handleInlineQuery] over the found tracks: a track whose
    stream URL cannot be had, or is empty, is skipped. *)
Fixpoint handleInlineQuery_loop (s : Service) (tracks : list Track)
    (results : list InlineQueryResultAudio) (w : World)
  : list InlineQueryResultAudio * World :=
  match tracks with
  | [] => (results, w)
  | track :: rest =>
      match StreamURL s (ID track) w with
      | (Ok (meta, url), w') =>
          if decide (url = "") then handleInlineQuery_loop s rest results w'
          else
            let audio :=
              {| audio_ID := ID meta; audio_URL := url;
                 audio_Title := Title meta;
                 audio_Performer := ArtistsString meta;
                 audio_Caption :=
                   Title meta +:+ " — " +:+ ArtistsString meta |} in
            handleInlineQuery_loop s rest (results ++ [audio]) w'
      | (Err _, w') => handleInlineQuery_loop s rest results w'
      end
  end.

Definition handleInlineQuery (b : Bot) (q : InlineQuery) (ch : Chat) : Chat :=
  let query := TrimSpace (iq_Query q) in
  if decide (query = "") then ch
  else
    let offset :=
      if decide (iq_Offset q ≠ "") then
        match Atoi (iq_Offset q) with
        | Ok v => if decide (v >= 0) then v else 0
        | Err _ => 0
        end
      else 0 in
    match Search (musicService b) query searchLimit offset (world ch) with
    | (Err _, w) => set_world w ch
    | (Ok tracks, w) =>
        let '(results, w') :=
          handleInlineQuery_loop (musicService b) tracks [] w in
        let ans :=
          InlineConfig (iq_ID q) results
            (pretty (int_wrap (offset + Z.of_nat (length results)))) in
        (api_Call b ans (set_world w' ch)).2
    end.

Definition sendAlert (b : Bot) (cb : CallbackQuery) (text : string)
    (ch : Chat) : Chat :=
  (api_Call b (CallbackConfig (cb_ID cb) text true) ch).2.

(** [handleCallback]; the deferred removal of the directory of the
    downloaded file runs when the handler returns, after the alert of a
    failed send. *)
Definition handleCallback (b : Bot) (cb : CallbackQuery) (ch : Chat) : Chat :=
  if decide (cb_Data cb = "" ∨ HasPrefix (cb_Data cb) callbackPrefix = false)
  then ch
  else
    let trackID := TrimPrefix (cb_Data cb) callbackPrefix in
    let chatID :=
      match cb_Chat cb with
      | Some id => id
      | None => cb_From cb
      end in
    (* Immediately acknowledge to avoid Telegram timeout. *)
    let ch :=
      (api_Call b (CallbackConfig (cb_ID cb) "Готовим ваш трек…" false) ch).2 in
    match DownloadTrack (musicService b) trackID (world ch) with
    | (Err _, w) => sendAlert b cb "Не удалось скачать трек :(" (set_world w ch)
    | (Ok (meta, file), w) =>
        let audio :=
          AudioConfig chatID file (DurationSeconds meta) (ArtistsString meta)
            (Title meta) (Title meta +:+ " — " +:+ ArtistsString meta) in
        let '(answer, ch) := api_Call b audio (set_world w ch) in
        let ch :=
          match answer with
          | Ok _ => ch
          | Err _ => sendAlert b cb "Не удалось отправить аудио :(" ch
          end in
        set_world
          (set_fs (os.RemoveAll (filepath.Dir file) (fs (world ch))) (world ch))
          ch
    end.

End handlers.

End telegram.

(** ** Vocabulary of the properties *)

(** The two headers [attachHeaders] is responsible for. *)
Definition stamped (c : APIClient) (r : Request) : Prop :=
  req_Header r !! "User-Agent" = Some userAgent
  ∧ req_Header r !! "Authorization"
    = if decide (token c = "") then None else Some ("OAuth " +:+ token c).

(** From [w] to [w'] at most [k] requests were handed to the HTTP
    client, each with the two headers, and none was taken back. *)
Definition sends (c : APIClient) (k : nat) (w w' : World) : Prop :=
  ∃ l, sent w' = sent w ++ l ∧ (length l ≤ k)%nat ∧ Forall (stamped c) l.


(** From [m] to [m'] nothing changed but directories added on the way
    down to [dir]. *)
Definition grows_towards (dir : path) (m m' : gmap path node) : Prop :=
  ∀ q, m' !! q = m !! q
       ∨ (m !! q = None ∧ m' !! q = Some NDir ∧ q `prefix_of` dir ∧ q ≠ []).

(** The file name [DownloadTrack] formats for a track, and the names
    that hold no path separator. *)
Definition filename (meta : Track) : string :=
  ArtistsString meta +:+ " - " +:+ Title meta +:+ ".mp3".

Definition plain (name : string) : Prop :=
  "/"%char ∉ String.list_ascii_of_string name.

(** The cover addresses with no size placeholder character. *)
Definition unsized (uri : string) : Prop :=
  "%"%char ∉ String.list_ascii_of_string uri.

(** ** More test doubles *)

Module Scenario.

(** A bot API that accepts every message, and one that refuses audio. *)
Definition accepting : telegram.BotAPI := λ _ _, Ok tt.


(** Decimal offsets, as the handlers write them. *)
Definition atoi : Strconv :=
  λ s,
    match List.find (λ n, bool_decide (pretty (Z.of_nat n) = s)) (seq 0 100) with
    | Some n => Ok (Z.of_nat n)
    | None => Err (Foreign "invalid syntax")
    end.

Definition plain : trackDTO := Fixture.dto "42" "Song" 185000 ["Band"; "Guest"].

Definition bot (t : trackDTO) (id : string) (audio : Response)
    (tg : telegram.BotAPI) : telegram.Bot :=
  {| telegram.api := tg; telegram.musicService := Fixture.service t id audio |}.

Definition chat : telegram.Chat :=
  {| telegram.world := Fixture.world; telegram.told := [] |}.


(** An environment from a table of variables. *)
Definition environ (table : list (string * string)) : Environ :=
  λ name, default "" (Fixture.lookup table name).

(** A body delivered in part: the stream breaks after its bytes. *)
Definition broken (status : Z) (bytes : string) : Response :=
  {| StatusCode := status; Header := ∅;
     resp_Body := {| body_bytes := bytes;
                     body_err := Some (Foreign "unexpected EOF") |};
     resp_Request := None |}.

(** A library for which the bytes [partial] are a JSON document without
    src and an XML document without host. *)
Definition yielding_nothing : GoLib :=
  Fixture.lib [] [] [] [("partial", "")]
    [("partial",
      {| xml_Host := ""; xml_Path := "/p"; xml_TS := "123";
         xml_S := "sig"; xml_Region := "" |})].

(** A response that records the request it answers. *)
Definition recorded (status : Z) (bytes url : string) : Response :=
  {| StatusCode := status; Header := ∅;
     resp_Body := {| body_bytes := bytes; body_err := None |};
     resp_Request := Some url |}.

(** The first page of the search for abc, and the one track on it
    served end to end. *)
Definition inline_server : APIClient :=
  Fixture.api
    [(apiBase +:+ "/search?nococrrect=true&page=0&text=abc&type=track",
      Fixture.respond 200 "page");
     (apiBase +:+ "/tracks/42", Fixture.respond 200 "meta");
     (apiBase +:+ "/tracks/42/download-info", Fixture.respond 200 "info");
     ("https://storage/info", Fixture.respond 200 "json")].

Definition ask (text offset : string) : telegram.InlineQuery :=
  {| telegram.iq_ID := "iq1"; telegram.iq_Query := text;
     telegram.iq_Offset := offset |}.

Definition found : telegram.InlineQueryResultAudio :=
  {| telegram.audio_ID := "42";
     telegram.audio_URL := "https://cdn/audio.mp3";
     telegram.audio_Title := "Song";
     telegram.audio_Performer := "Band, Guest";
     telegram.audio_Caption := "Song — Band, Guest" |}.

End Scenario.

(** * Properties *)

(** ** The DTO mapping *)

Lemma collectArtists_filter (acc : list string) (artists : list artistDTO) :
  collectArtists acc artists
  = acc ++ filter (λ n, n ≠ "") (artist_Name <$> artists).
Proof.
  revert acc. induction artists as [|a rest IH]; intros acc; simpl.
  - by rewrite app_nil_r.
  - rewrite filter_cons. destruct (decide (artist_Name a = "")) as [E|E].
    + rewrite decide_False by (by intros []). apply IH.
    + rewrite decide_True by done. rewrite IH, <- app_assoc. done.
Qed.

Lemma Join_concat (elems : list string) (sep : string) :
  strings.Join elems sep = String.concat sep elems.
Proof.
  induction elems as [|e [|e' rest] IH]; simpl in *; try done.
  by rewrite IH.
Qed.

Lemma ArtistsString_Join (t : Track) :
  ArtistsString t = strings.Join (Artists t) ", ".
Proof. unfold ArtistsString. by destruct (Artists t). Qed.

(** C10. The artists of a mapped Track are the DTO's artist names with the
    empty names removed, in their original order, and nothing else;
    [ArtistsString] joins them with a comma and a space and is empty when
    no name is left. *)
Theorem mapTrack_artists (t : trackDTO) :
  Artists (mapTrack t) = filter (λ n, n ≠ "") (artist_Name <$> dto_Artists t)
  ∧ Artists (mapTrack t) `sublist_of` (artist_Name <$> dto_Artists t)
  ∧ (∀ n, n ∈ Artists (mapTrack t)
          ↔ n ∈ artist_Name <$> dto_Artists t ∧ n ≠ "")
  ∧ ArtistsString (mapTrack t)
    = String.concat ", "
        (filter (λ n, n ≠ "") (artist_Name <$> dto_Artists t))
  ∧ (filter (λ n, n ≠ "") (artist_Name <$> dto_Artists t) = []
     → ArtistsString (mapTrack t) = "")
  ∧ (∀ a b, artist_Name <$> dto_Artists t = [a; ""; b] → a ≠ "" → b ≠ ""
     → Artists (mapTrack t) = [a; b]
       ∧ ArtistsString (mapTrack t) = a +:+ ", " +:+ b).
Proof.
  assert (E : Artists (mapTrack t)
              = filter (λ n, n ≠ "") (artist_Name <$> dto_Artists t)).
  { unfold mapTrack; simpl. by rewrite collectArtists_filter. }
  split_and!.
  - done.
  - rewrite E. apply sublist_filter.
  - intros n. rewrite E, list_elem_of_filter. tauto.
  - by rewrite ArtistsString_Join, Join_concat, E.
  - intros Hnil. unfold ArtistsString. by rewrite E, Hnil.
  - intros a b Hn Ha Hb.
    assert (E' : Artists (mapTrack t) = [a; b]).
    { rewrite E, Hn. rewrite !filter_cons, filter_nil.
      rewrite decide_True by done. rewrite decide_False by (by intros []).
      by rewrite decide_True by done. }
    split; [done|]. by rewrite ArtistsString_Join, E'.
Qed.

(** C8. The duration of a mapped Track is the DTO's milliseconds divided
    by 1000 with the quotient truncated: 185000 gives 185, 1999 gives 1,
    and a non-negative duration lies less than one second above the
    result. *)
Theorem mapTrack_duration (t : trackDTO) :
  DurationSeconds (mapTrack t) = dto_DurationMs t `quot` 1000
  ∧ (0 ≤ dto_DurationMs t
     → 1000 * DurationSeconds (mapTrack t) ≤ dto_DurationMs t
       ∧ dto_DurationMs t < 1000 * DurationSeconds (mapTrack t) + 1000)
  ∧ (dto_DurationMs t ≤ 0
     → 1000 * DurationSeconds (mapTrack t) - 1000 < dto_DurationMs t
       ∧ dto_DurationMs t ≤ 1000 * DurationSeconds (mapTrack t))
  ∧ (dto_DurationMs t = 185000 → DurationSeconds (mapTrack t) = 185)
  ∧ (dto_DurationMs t = 1999 → DurationSeconds (mapTrack t) = 1).
Proof.
  unfold mapTrack; simpl. split_and!.
  - done.
  - intros Hd. rewrite Z.quot_div_nonneg by lia.
    pose proof (Z.mod_pos_bound (dto_DurationMs t) 1000 ltac:(lia)).
    pose proof (Z.div_mod (dto_DurationMs t) 1000 ltac:(lia)). lia.
  - intros Hd.
    pose proof (Z.quot_rem' (dto_DurationMs t) 1000) as Hq.
    pose proof (Z.rem_bound_neg_neg (dto_DurationMs t) 1000) as Hr1.
    pose proof (Z.rem_nonpos (dto_DurationMs t) 1000 ltac:(lia) Hd) as Hr2.
    assert (-1000 < dto_DurationMs t `rem` 1000).
    { pose proof (Z.rem_opp_l' (dto_DurationMs t) 1000) as Ho.
      pose proof (Z.rem_bound_pos (- dto_DurationMs t) 1000
                    ltac:(lia) ltac:(lia)). lia. }
    lia.
  - by intros ->.
  - by intros ->.
Qed.

Lemma mapTrack_artists_witness :
  Artists (mapTrack (Fixture.dto "7" "Duet" 1000 ["A"; ""; "B"])) = ["A"; "B"]
  ∧ ArtistsString (mapTrack (Fixture.dto "7" "Duet" 1000 ["A"; ""; "B"]))
    = "A, B".
Proof.
  refine (proj2 (proj2 (proj2 (proj2 (proj2
    (mapTrack_artists (Fixture.dto "7" "Duet" 1000 ["A"; ""; "B"]))))))
    "A" "B" eq_refl _ _); discriminate.
Defined.

Lemma mapTrack_duration_witness :
  DurationSeconds (mapTrack (Fixture.dto "7" "Duet" 1999 ["A"])) = 1.
Proof.
  exact (proj2 (proj2 (proj2 (proj2
    (mapTrack_duration (Fixture.dto "7" "Duet" 1999 ["A"]))))) eq_refl).
Defined.

(** ** Candidate selection *)

Lemma foldEq_m (c : ascii) :
  strings.foldEq c "m" = true ↔ c = "m"%char ∨ c = "M"%char.
Proof.
  destruct c as [[] [] [] [] [] [] [] []]; vm_compute;
    (split; [intros E; first [discriminate E | by left | by right]
            | intros [E|E]; first [discriminate E | done]]).
Qed.

Lemma foldEq_p (c : ascii) :
  strings.foldEq c "p" = true ↔ c = "p"%char ∨ c = "P"%char.
Proof.
  destruct c as [[] [] [] [] [] [] [] []]; vm_compute;
    (split; [intros E; first [discriminate E | by left | by right]
            | intros [E|E]; first [discriminate E | done]]).
Qed.

Lemma foldEq_3 (c : ascii) :
  strings.foldEq c "3" = true ↔ c = "3"%char.
Proof.
  destruct c as [[] [] [] [] [] [] [] []]; vm_compute;
    (split; intros E; first [discriminate E | done]).
Qed.

(** Folding to mp3 is being one of its four spellings. *)
Lemma EqualFold_mp3 (codec : string) :
  strings.EqualFold codec "mp3" = true
  ↔ codec ∈ ["mp3"; "mP3"; "Mp3"; "MP3"].
Proof.
  rewrite !elem_of_cons, elem_of_nil.
  destruct codec as [|c1 [|c2 [|c3 [|c4 rest]]]]; simpl;
    rewrite ?andb_false_r, ?andb_true_r;
    try (split; [discriminate | intros [E|[E|[E|[E|[]]]]]; discriminate E]).
  rewrite !andb_true_iff, foldEq_m, foldEq_p, foldEq_3. split.
  - intros [[-> | ->] [[-> | ->] ->]]; tauto.
  - intros [E|[E|[E|[E|[]]]]]; injection E as -> -> ->; tauto.
Qed.

Lemma pickDownloadInfo_loop_Some (items : list downloadInfoDTO) i :
  pickDownloadInfo_loop items = Some i
  → ∃ before after,
      items = before ++ i :: after
      ∧ Forall (λ j, strings.EqualFold (info_Codec j) "mp3" = false) before
      ∧ strings.EqualFold (info_Codec i) "mp3" = true.
Proof.
  induction items as [|j rest IH]; simpl; [done|].
  destruct (strings.EqualFold (info_Codec j) "mp3") eqn:E.
  - intros [= ->]. by exists [], rest.
  - intros (before & after & -> & Hb & Hi)%IH.
    exists (j :: before), after. by repeat constructor.
Qed.

Lemma pickDownloadInfo_loop_None (items : list downloadInfoDTO) :
  pickDownloadInfo_loop items = None
  → Forall (λ j, strings.EqualFold (info_Codec j) "mp3" = false) items.
Proof.
  induction items as [|j rest IH]; simpl; [by constructor|].
  destruct (strings.EqualFold (info_Codec j) "mp3") eqn:E; [done|].
  intros ?. constructor; auto.
Qed.

Lemma not_mp3 (codec : string) :
  strings.EqualFold codec "mp3" = false
  ↔ codec ∉ ["mp3"; "mP3"; "Mp3"; "MP3"].
Proof. rewrite <- EqualFold_mp3. by destruct (strings.EqualFold _ _). Qed.

(** C3. On a non-empty candidate list [pickDownloadInfo] returns a
    candidate of the list: the first one whose codec is mp3 in any
    letter case, or, when no codec is, the first candidate.  From
    aac, MP3, flac it picks the second, from aac, flac the first. *)
Theorem pickDownloadInfo_first_mp3 (items : list downloadInfoDTO) :
  items ≠ [] →
  pickDownloadInfo items ∈ items
  ∧ ((∃ before after,
        items = before ++ pickDownloadInfo items :: after
        ∧ Forall (λ j, info_Codec j ∉ ["mp3"; "mP3"; "Mp3"; "MP3"]) before
        ∧ info_Codec (pickDownloadInfo items) ∈ ["mp3"; "mP3"; "Mp3"; "MP3"])
     ∨ (Forall (λ j, info_Codec j ∉ ["mp3"; "mP3"; "Mp3"; "MP3"]) items
        ∧ head items = Some (pickDownloadInfo items)))
  ∧ (∀ a b c, items = [a; b; c] → info_Codec a = "aac"
       → info_Codec b = "MP3" → info_Codec c = "flac"
       → pickDownloadInfo items = b)
  ∧ (∀ a b, items = [a; b] → info_Codec a = "aac" → info_Codec b = "flac"
       → pickDownloadInfo items = a).
Proof.
  intros Hne. destruct items as [|first rest]; [done|].
  assert (Hcases :
    (∃ before after,
        first :: rest = before ++ pickDownloadInfo (first :: rest) :: after
        ∧ Forall (λ j, info_Codec j ∉ ["mp3"; "mP3"; "Mp3"; "MP3"]) before
        ∧ info_Codec (pickDownloadInfo (first :: rest))
          ∈ ["mp3"; "mP3"; "Mp3"; "MP3"])
    ∨ (Forall (λ j, info_Codec j ∉ ["mp3"; "mP3"; "Mp3"; "MP3"])
         (first :: rest)
       ∧ head (first :: rest) = Some (pickDownloadInfo (first :: rest)))).
  { unfold pickDownloadInfo.
    destruct (pickDownloadInfo_loop (first :: rest)) as [i|] eqn:E.
    - left. apply pickDownloadInfo_loop_Some in E
        as (before & after & Hsplit & Hb & Hi).
      exists before, after. split_and!; [done| |by apply EqualFold_mp3].
      eapply Forall_impl; [exact Hb|]. intros j. by rewrite not_mp3.
    - right. split; [|done].
      apply pickDownloadInfo_loop_None in E.
      eapply Forall_impl; [exact E|]. intros j. by rewrite not_mp3. }
  split_and!.
  - destruct Hcases as [(before & after & Hsplit & _)|[_ Hhd]].
    + set (p := pickDownloadInfo (first :: rest)) in *.
      rewrite Hsplit. apply elem_of_app. right. by left.
    + injection Hhd as Hhd. rewrite <- Hhd at 1. by left.
  - exact Hcases.
  - intros a b c [= -> ->] Ha Hb Hc. unfold pickDownloadInfo; simpl.
    by rewrite Ha, Hb.
  - intros a b [= -> ->] Ha Hb. unfold pickDownloadInfo; simpl.
    by rewrite Ha, Hb.
Qed.

Lemma pickDownloadInfo_first_mp3_witness :
  pickDownloadInfo
    [Fixture.codec "aac" "u1"; Fixture.codec "MP3" "u2";
     Fixture.codec "flac" "u3"]
  = Fixture.codec "MP3" "u2".
Proof.
  refine (proj1 (proj2 (proj2
    (pickDownloadInfo_first_mp3
       [Fixture.codec "aac" "u1"; Fixture.codec "MP3" "u2";
        Fixture.codec "flac" "u3"] _))) _ _ _ eq_refl eq_refl eq_refl eq_refl).
  discriminate.
Defined.

(** ** Download-URL resolution *)

Lemma string_app_assoc (a b c : string) : (a +:+ b) +:+ c = a +:+ b +:+ c.
Proof.
  induction a as [|x a IH]; [done|].
  change (String x ((a +:+ b) +:+ c) = String x (a +:+ b +:+ c)).
  by rewrite IH.
Qed.

(** Unfolds the monadic plumbing of a client operation. *)
Ltac run :=
  unfold mbind, M_bind, mret, M_ret, lift, throw, httpClient_Do in *;
  simpl in *.

Section resolution.
Context `{GoLib}.

Lemma parseDownloadInfoXML_Ok (data trackID : string) (u : string) :
  parseDownloadInfoXML data trackID = Ok u
  → ∃ info rest,
      data ≠ "" ∧ xml_Unmarshal data = Ok info
      ∧ xml_Host info ≠ "" ∧ xml_Path info ≠ ""
      ∧ xml_TS info ≠ "" ∧ xml_S info ≠ ""
      ∧ u = "https://" +:+ rest.
Proof.
  unfold parseDownloadInfoXML.
  destruct (decide (data = "")) as [|Hd]; [done|].
  destruct (xml_Unmarshal data) as [info|e]; [|done].
  case_decide as Hf; [done|]. intros [= <-].
  exists info. destruct (decide (trackID ≠ ""));
    rewrite ?string_app_assoc;
    eexists; (split_and!; [done|done|tauto|tauto|tauto|tauto|]);
    reflexivity.
Qed.

Lemma parseDownloadInfoXML_nonempty (data trackID u : string) :
  parseDownloadInfoXML data trackID = Ok u → u ≠ "".
Proof. by intros (? & ? & _ & _ & _ & _ & _ & _ & ->)%parseDownloadInfoXML_Ok. Qed.

(** C2. For an XML body decoded to the fields host, path, ts and s, all
    non-empty, and a non-empty track id, [parseDownloadInfoXML] returns
    [https://{host}/get-mp3/{s}/{ts}{path}?track-id={id}] with the
    fields verbatim (h, /p, 123, sig and id 42 give
    https://h/get-mp3/sig/123/p?track-id=42); if one of the four is
    empty it returns the error "incomplete xml fields". *)
Theorem parseDownloadInfoXML_assembles (data trackID : string) (info : xmlInfo) :
  data ≠ "" → xml_Unmarshal data = Ok info →
  (xml_Host info ≠ "" → xml_Path info ≠ "" → xml_TS info ≠ ""
   → xml_S info ≠ "" → trackID ≠ ""
   → parseDownloadInfoXML data trackID
     = Ok ("https://" +:+ xml_Host info +:+ "/get-mp3/" +:+ xml_S info
             +:+ "/" +:+ xml_TS info +:+ xml_Path info
             +:+ "?track-id=" +:+ trackID))
  ∧ (xml_Host info = "" ∨ xml_Path info = "" ∨ xml_TS info = ""
     ∨ xml_S info = ""
     → parseDownloadInfoXML data trackID = Err (Errorf "incomplete xml fields"))
  ∧ (xml_Host info = "h" → xml_Path info = "/p" → xml_TS info = "123"
     → xml_S info = "sig" → trackID = "42"
     → parseDownloadInfoXML data trackID
       = Ok "https://h/get-mp3/sig/123/p?track-id=42").
Proof.
  intros Hd Hx. unfold parseDownloadInfoXML.
  rewrite decide_False by done. rewrite Hx. split_and!.
  - intros Hh Hp Ht Hs Hid.
    rewrite decide_False by tauto. rewrite decide_True by done.
    by rewrite !string_app_assoc.
  - intros Hempty. by rewrite decide_True.
  - intros -> -> -> -> ->.
    by rewrite decide_False by (by intros [?|[?|[?|?]]]).
Qed.

Lemma resolveDownloadInfoURL_run (c : APIClient) (infoURL trackID : string)
    (w : World) (req : Request) (resp : Response) :
  infoURL ≠ "" → NewRequest infoURL = Ok req
  → @Do (httpClient c) (sent w) (attachHeaders c req) = Ok resp
  → resolveDownloadInfoURL c infoURL trackID w
    = (resolveResponse resp trackID,
       set_sent (sent w ++ [attachHeaders c req]) w).
Proof.
  intros Hu Hreq Hdo. unfold resolveDownloadInfoURL.
  rewrite decide_False by done. run. by rewrite Hreq, Hdo.
Qed.

Lemma resolveResponse_json (resp : Response) (trackID src : string) :
  ReadAllLimit (resp_Body resp) (N.to_nat 8192) ≠ ""
  → json_Unmarshal_src (ReadAllLimit (resp_Body resp) (N.to_nat 8192)) = Ok src
  → src ≠ ""
  → resolveResponse resp trackID = Ok src.
Proof.
  intros Hb Hj Hs. unfold resolveResponse.
  rewrite decide_True by done. rewrite Hj. by rewrite decide_True.
Qed.

Lemma resolveResponse_no_json (resp : Response) (trackID : string) :
  ReadAllLimit (resp_Body resp) (N.to_nat 8192) = ""
  ∨ (∃ e, json_Unmarshal_src
            (ReadAllLimit (resp_Body resp) (N.to_nat 8192)) = Err e)
  ∨ json_Unmarshal_src (ReadAllLimit (resp_Body resp) (N.to_nat 8192)) = Ok ""
  → resolveResponse resp trackID
    = match parseDownloadInfoXML
              (ReadAllLimit (resp_Body resp) (N.to_nat 8192)) trackID with
      | Ok xmlURL => Ok xmlURL
      | Err _ => redirectTarget resp
      end.
Proof.
  intros Hmiss. unfold resolveResponse.
  set (body := ReadAllLimit (resp_Body resp) (N.to_nat 8192)) in *.
  assert (Hnone :
    (if decide (body ≠ "") then
       match json_Unmarshal_src body with
       | Ok src => if decide (src ≠ "") then Some src else None
       | Err _ => None
       end
     else None) = None).
  { destruct (decide (body ≠ "")) as [Hb|Hb]; [|done].
    destruct Hmiss as [?|[[e He]|He]]; [done|by rewrite He|].
    rewrite He. by rewrite decide_False by (by intros []). }
  rewrite Hnone.
  destruct (parseDownloadInfoXML body trackID) as [u|e] eqn:Hx; [|done].
  apply parseDownloadInfoXML_nonempty in Hx. by rewrite decide_True.
Qed.

Lemma resolveResponse_status (resp : Response) (trackID : string) (status : Z) :
  resolveResponse (set_StatusCode status resp) trackID
  = match resolveResponse resp trackID with
    | Ok u => Ok u
    | Err _ => Err (ResolveErrorf status)
    end.
Proof.
  unfold resolveResponse, redirectTarget; simpl.
  repeat (case_match; simplify_eq; try done).
Qed.

(** C1. The three payload shapes are tried in the order JSON, XML,
    redirect, on the bytes read from the response (at most 8KB of its
    body).  When these bytes decode as JSON with a non-empty [src], the
    result is that [src], whatever the XML decoder or the headers would
    give.  The XML URL is the result only when the JSON attempt gave
    nothing (no bytes, a decoding error, or an empty [src]); the
    Location header, and after it the URL of the final request, only
    when the XML attempt gave nothing either. *)
Theorem resolveDownloadInfoURL_priority (c : APIClient)
    (infoURL trackID : string) (w : World) (req : Request)
    (resp : Response) (body : string) :
  infoURL ≠ "" → NewRequest infoURL = Ok req
  → @Do (httpClient c) (sent w) (attachHeaders c req) = Ok resp
  → body = ReadAllLimit (resp_Body resp) (N.to_nat 8192)
  → (∀ src, body ≠ "" → json_Unmarshal_src body = Ok src → src ≠ ""
       → (resolveDownloadInfoURL c infoURL trackID w).1 = Ok src)
    ∧ (body = "" ∨ (∃ e, json_Unmarshal_src body = Err e)
       ∨ json_Unmarshal_src body = Ok ""
       → (∀ xmlURL, parseDownloadInfoXML body trackID = Ok xmlURL
            → (resolveDownloadInfoURL c infoURL trackID w).1 = Ok xmlURL)
         ∧ (∀ e, parseDownloadInfoXML body trackID = Err e
              → (Header_Get (Header resp) "Location" ≠ ""
                 → (resolveDownloadInfoURL c infoURL trackID w).1
                   = Ok (Header_Get (Header resp) "Location"))
                ∧ (Header_Get (Header resp) "Location" = ""
                   → ∀ u, resp_Request resp = Some u
                   → (resolveDownloadInfoURL c infoURL trackID w).1 = Ok u)
                ∧ (Header_Get (Header resp) "Location" = ""
                   → resp_Request resp = None
                   → (resolveDownloadInfoURL c infoURL trackID w).1
                     = Err (ResolveErrorf (StatusCode resp)))))
    ∧ ((∃ src, body ≠ "" ∧ json_Unmarshal_src body = Ok src ∧ src ≠ "")
       ∨ body = "" ∨ (∃ e, json_Unmarshal_src body = Err e)
       ∨ json_Unmarshal_src body = Ok "").
Proof.
  intros Hu Hreq Hdo ->.
  rewrite (resolveDownloadInfoURL_run _ _ _ _ _ _ Hu Hreq Hdo); simpl.
  split_and!; [| |destruct (decide
      (ReadAllLimit (resp_Body resp) (N.to_nat 8192) = "")) as [|Hb];
    [by auto|];
    destruct (json_Unmarshal_src _) as [src|e]; [|by eauto];
    destruct (decide (src = "")) as [->|Hs]; [by auto|by eauto]].
  - intros src Hb Hj Hs. by apply resolveResponse_json.
  - intros Hmiss. rewrite (resolveResponse_no_json _ _ Hmiss). split.
    + by intros xmlURL ->.
    + intros e ->. unfold redirectTarget. split_and!.
      * intros Hl. by rewrite decide_True.
      * intros Hl u Hr. rewrite decide_False by (by intros []).
        by rewrite Hr.
      * intros Hl Hr. rewrite decide_False by (by intros []).
        by rewrite Hr.
Qed.

(** C9. Resolution does not look at the status code of the
    indirection response: the same response under another status
    resolves to the same URL, and only the final failure carries the
    status in its message.  A body with a non-empty JSON [src], or,
    failing that, with the four XML fields, resolves to that URL under
    a status other than 200 too. *)
Theorem resolveDownloadInfoURL_any_status (c : APIClient)
    (infoURL trackID : string) (w : World) (req : Request)
    (resp : Response) (body : string) :
  infoURL ≠ "" → NewRequest infoURL = Ok req
  → @Do (httpClient c) (sent w) (attachHeaders c req) = Ok resp
  → body = ReadAllLimit (resp_Body resp) (N.to_nat 8192)
  → StatusCode resp ≠ 200
  → (∀ src, body ≠ "" → json_Unmarshal_src body = Ok src → src ≠ ""
       → (resolveDownloadInfoURL c infoURL trackID w).1 = Ok src)
    ∧ (∀ info, body ≠ "" → xml_Unmarshal body = Ok info
         → xml_Host info ≠ "" → xml_Path info ≠ "" → xml_TS info ≠ ""
         → xml_S info ≠ ""
         → (∃ e, json_Unmarshal_src body = Err e)
           ∨ json_Unmarshal_src body = Ok ""
         → (resolveDownloadInfoURL c infoURL trackID w).1
           = parseDownloadInfoXML body trackID
           ∧ is_Ok (parseDownloadInfoXML body trackID) = true)
    ∧ (∀ status,
         resolveResponse (set_StatusCode status resp) trackID
         = match (resolveDownloadInfoURL c infoURL trackID w).1 with
           | Ok u => Ok u
           | Err _ => Err (ResolveErrorf status)
           end)
    ∧ (∀ e, (resolveDownloadInfoURL c infoURL trackID w).1 = Err e
         → e = ResolveErrorf (StatusCode resp)).
Proof.
  intros Hu Hreq Hdo -> Hstatus.
  rewrite (resolveDownloadInfoURL_run _ _ _ _ _ _ Hu Hreq Hdo); simpl.
  split_and!.
  - intros src Hb Hj Hs. by apply resolveResponse_json.
  - intros info Hb Hx Hh Hp Ht Hs Hmiss.
    rewrite resolveResponse_no_json by tauto.
    unfold parseDownloadInfoXML.
    rewrite decide_False by done. rewrite Hx.
    by rewrite decide_False by tauto.
  - intros status. apply resolveResponse_status.
  - intros e. unfold resolveResponse, redirectTarget.
    repeat case_match; try done; by intros [= <-].
Qed.

End resolution.

Lemma parseDownloadInfoXML_assembles_witness :
  @parseDownloadInfoXML Fixture.ambiguous "signed" "42"
  = Ok "https://h/get-mp3/sig/123/p?track-id=42".
Proof.
  refine (proj2 (proj2
    (@parseDownloadInfoXML_assembles Fixture.ambiguous "signed" "42"
       Fixture.signed _ eq_refl)) eq_refl eq_refl eq_refl eq_refl eq_refl).
  discriminate.
Defined.

Lemma resolveDownloadInfoURL_priority_witness :
  (@resolveDownloadInfoURL Fixture.ambiguous
     (Fixture.api [("https://storage/info", Fixture.respond 200 "both")])
     "https://storage/info" "42" Fixture.world).1
  = Ok "A".
Proof.
  refine (proj1
    (@resolveDownloadInfoURL_priority Fixture.ambiguous
       (Fixture.api [("https://storage/info", Fixture.respond 200 "both")])
       "https://storage/info" "42" Fixture.world
       {| req_URL := "https://storage/info"; req_Header := ∅ |}
       (Fixture.respond 200 "both") "both" _ eq_refl eq_refl eq_refl)
    "A" _ eq_refl _); discriminate.
Defined.

Lemma resolveDownloadInfoURL_any_status_witness :
  (@resolveDownloadInfoURL Fixture.ambiguous
     (Fixture.api [("https://storage/info", Fixture.respond 404 "both")])
     "https://storage/info" "42" Fixture.world).1
  = Ok "A".
Proof.
  refine (proj1
    (@resolveDownloadInfoURL_any_status Fixture.ambiguous
       (Fixture.api [("https://storage/info", Fixture.respond 404 "both")])
       "https://storage/info" "42" Fixture.world
       {| req_URL := "https://storage/info"; req_Header := ∅ |}
       (Fixture.respond 404 "both") "both" _ eq_refl eq_refl eq_refl _)
    "A" _ eq_refl _); discriminate.
Defined.

(** ** Validation, paging and the identifier *)

Lemma asciiSpace_ASCII (c : ascii) : asciiSpace c = true → nonASCII c = false.
Proof.
  destruct c as [[] [] [] [] [] [] [] []]; vm_compute; intros E;
    first [discriminate E | reflexivity].
Qed.

Section operations.
Context `{GoLib}.

Lemma TrimSpace_spaces (query : string) :
  (∀ ch, ch ∈ String.list_ascii_of_string query → asciiSpace ch = true)
  → TrimSpace query = "".
Proof.
  induction query as [|ch rest IH]; simpl; [done|].
  intros Hall.
  assert (Hch : asciiSpace ch = true) by (apply Hall; by left).
  rewrite (asciiSpace_ASCII _ Hch), Hch.
  apply IH. intros ch' Hin. apply Hall. by right.
Qed.

Lemma SearchTracks_blank (c : APIClient) (query : string) (limit offset : Z)
    (w : World) :
  TrimSpace query = ""
  → SearchTracks c query limit offset w = (Err (Errorf "query is empty"), w).
Proof. intros E. unfold SearchTracks. by rewrite decide_True. Qed.

(** C5. An empty or whitespace-only query makes [SearchTracks] fail
    with "query is empty", an empty id makes [GetTrack] and
    [GetDownloadURL] fail with "track id is empty", an empty URL makes
    [DownloadToFile] fail with "download url is empty": each is a
    validation error, and the world is returned as it was, so no
    request was handed to the HTTP client. *)
Theorem validation_before_any_request (c : APIClient) (w : World) :
  (∀ query limit offset, TrimSpace query = ""
     → SearchTracks c query limit offset w
       = (Err (Errorf "query is empty"), w))
  ∧ (∀ limit offset,
       SearchTracks c "" limit offset w = (Err (Errorf "query is empty"), w))
  ∧ (∀ query limit offset,
       (∀ ch, ch ∈ String.list_ascii_of_string query → asciiSpace ch = true)
       → SearchTracks c query limit offset w
         = (Err (Errorf "query is empty"), w))
  ∧ GetTrack c "" w = (Err (Errorf "track id is empty"), w)
  ∧ GetDownloadURL c "" w = (Err (Errorf "track id is empty"), w)
  ∧ (∀ destPath,
       DownloadToFile c "" destPath w
       = (Err (Errorf "download url is empty"), w))
  ∧ ValidationError (Errorf "query is empty")
  ∧ ValidationError (Errorf "track id is empty")
  ∧ ValidationError (Errorf "download url is empty").
Proof.
  split_and!.
  - intros. by apply SearchTracks_blank.
  - intros. by apply SearchTracks_blank.
  - intros. by apply SearchTracks_blank, TrimSpace_spaces.
  - done.
  - done.
  - done.
  - by left.
  - right. by left.
  - right. right. by left.
Qed.

Lemma SearchTracks_loop_take (limit i : Z) (results : list trackDTO)
    (tracks : list Track) :
  SearchTracks_loop limit i results tracks
  = tracks ++ (mapTrack <$> take (Z.to_nat (limit - i)) results).
Proof.
  revert i tracks. induction results as [|t rest IH]; intros i tracks; simpl.
  - by rewrite take_nil, app_nil_r.
  - case_decide as Hi.
    + replace (Z.to_nat (limit - i)) with 0%nat by lia.
      by rewrite take_0, app_nil_r.
    + rewrite IH.
      replace (Z.to_nat (limit - i)) with (S (Z.to_nat (limit - (i + 1))))
        by lia.
      by rewrite firstn_cons, fmap_cons, <- app_assoc.
Qed.

(** What one call of [SearchTracks] does for a usable limit and
    offset: nothing is sent for a blank query or a URL that does not
    parse, otherwise the request for the page is sent and its answer
    decides the result. *)
Lemma SearchTracks_run (c : APIClient) (query : string) (limit offset : Z)
    (w : World) :
  0 < limit → 0 ≤ offset →
  SearchTracks c query limit offset w
  = if decide (TrimSpace query = "") then (Err (Errorf "query is empty"), w)
    else
      match url_Parse_error (searchURL query (offset `div` limit)) with
      | Some e => (Err e, w)
      | None =>
          let req :=
            attachHeaders c
              {| req_URL := searchURL query (offset `div` limit);
                 req_Header := ∅ |} in
          (match @Do (httpClient c) (sent w) req with
           | Err e => Err e
           | Ok resp =>
               if decide (StatusCode resp ≠ 200)
               then Err (statusError "search" resp)
               else
                 match json_Decode_search (resp_Body resp) with
                 | Err e => Err (Wrapf "decode search response" e)
                 | Ok payload =>
                     Ok (mapTrack <$> take (Z.to_nat limit)
                                        (search_Results payload))
                 end
           end, set_sent (sent w ++ [req]) w)
      end.
Proof.
  intros Hl Ho. unfold SearchTracks, NewRequest.
  case_decide; [done|].
  rewrite (decide_False (P := limit ≤ 0)) by lia.
  rewrite (decide_False (P := offset < 0)) by lia.
  rewrite Z.quot_div_nonneg by lia. run.
  destruct (url_Parse_error _); [done|].
  destruct (Do _ _) as [resp|e]; [|done].
  case_decide; [done|].
  destruct (json_Decode_search _) as [payload|e]; [|done].
  rewrite SearchTracks_loop_take.
  by replace (limit - 0) with limit by lia.
Qed.

Lemma SearchTracks_defaults (c : APIClient) (query : string)
    (limit offset : Z) (w : World) :
  SearchTracks c query limit offset w
  = SearchTracks c query (if decide (limit ≤ 0) then 10 else limit)
      (if decide (offset < 0) then 0 else offset) w.
Proof.
  unfold SearchTracks.
  destruct (decide (limit ≤ 0)), (decide (offset < 0));
    repeat (rewrite (decide_False (P := _ ≤ 0)) by lia);
    repeat (rewrite (decide_False (P := _ < 0)) by lia);
    repeat (rewrite (decide_True (P := _ ≤ 0)) by lia);
    repeat (rewrite (decide_True (P := _ < 0)) by lia); done.
Qed.

End operations.

Section paging.
Context `{GoLib}.

(** C4. For a limit above zero and an offset of at least zero
    [SearchTracks] sends one request, for the page offset/limit (integer
    division: the [page] with [limit * page ≤ offset < limit * page +
    limit], written in decimal in the URL), and when that page is
    answered with status 200 and decodes it returns the first [limit]
    tracks of the page, all of them when the page has fewer; a limit of
    zero or less behaves as the limit 10 and a negative offset as the
    offset 0. *)
Theorem SearchTracks_paging (c : APIClient) (query : string)
    (limit offset page : Z) (w : World) (url : string) :
  0 < limit → 0 ≤ offset
  → limit * page ≤ offset < limit * page + limit
  → url = apiBase +:+ "/search?nococrrect=true&page=" +:+ pretty page
            +:+ "&text=" +:+ url_QueryEscape query +:+ "&type=track"
  → (TrimSpace query ≠ "" → url_Parse_error url = None
     → sent (SearchTracks c query limit offset w).2
       = sent w ++ [attachHeaders c {| req_URL := url; req_Header := ∅ |}])
    ∧ (∀ req, req ∈ sent (SearchTracks c query limit offset w).2
         → req ∈ sent w ∨ req_URL req = url)
    ∧ (∀ resp payload,
         TrimSpace query ≠ "" → url_Parse_error url = None
         → @Do (httpClient c) (sent w)
             (attachHeaders c {| req_URL := url; req_Header := ∅ |}) = Ok resp
         → StatusCode resp = 200
         → json_Decode_search (resp_Body resp) = Ok payload
         → (SearchTracks c query limit offset w).1
           = Ok (mapTrack <$> take (Z.to_nat limit) (search_Results payload))
           ∧ (Z.of_nat (length (search_Results payload)) ≤ limit
              → (SearchTracks c query limit offset w).1
                = Ok (mapTrack <$> search_Results payload)))
    ∧ (∀ tracks, (SearchTracks c query limit offset w).1 = Ok tracks
         → Z.of_nat (length tracks) ≤ limit
           ∧ ∃ resp payload,
               @Do (httpClient c) (sent w)
                 (attachHeaders c {| req_URL := url; req_Header := ∅ |})
               = Ok resp
               ∧ StatusCode resp = 200
               ∧ json_Decode_search (resp_Body resp) = Ok payload
               ∧ tracks = mapTrack <$> take (Z.to_nat limit)
                                         (search_Results payload))
    ∧ (∀ l, l ≤ 0
         → SearchTracks c query l offset w = SearchTracks c query 10 offset w)
    ∧ (∀ o, o < 0
         → SearchTracks c query limit o w = SearchTracks c query limit 0 w)
    ∧ (∀ l o, l ≤ 0 → o < 0
         → SearchTracks c query l o w = SearchTracks c query 10 0 w).
Proof.
  intros Hl Ho Hpage ->.
  assert (Hdiv : offset `div` limit = page)
    by (symmetry; apply (Z.div_unique offset limit page (offset - limit * page)); lia).
  rewrite (SearchTracks_run c query limit offset w Hl Ho).
  rewrite Hdiv. unfold searchURL.
  split_and!.
  - intros Hq Hu. rewrite decide_False by done. by rewrite Hu.
  - intros req. case_decide; [by left|].
    destruct (url_Parse_error _); [by left|]. simpl.
    rewrite elem_of_app, list_elem_of_singleton.
    intros [?| ->]; [by left|by right].
  - intros resp payload Hq Hu Hdo Hs Hp.
    rewrite decide_False by done. rewrite Hu. simpl. rewrite Hdo.
    rewrite decide_False by (by intros []). rewrite Hp.
    split; [done|]. intros Hlen. by rewrite take_ge by lia.
  - intros tracks. case_decide; [done|].
    destruct (url_Parse_error _); [done|]. simpl.
    destruct (Do _ _) as [resp|e]; [|done].
    case_decide as Hs; [done|].
    destruct (json_Decode_search _) as [payload|e] eqn:Hp; [|done].
    intros [= <-]. split.
    + rewrite length_fmap, length_take. lia.
    + exists resp, payload. split_and!; [done| |done|done].
      by destruct (decide (StatusCode resp = 200)).
  - intros l Hle. rewrite (SearchTracks_defaults c query l offset).
    rewrite decide_True by done. by rewrite decide_False by lia.
  - intros o Hlt. rewrite (SearchTracks_defaults c query limit o).
    rewrite decide_False by lia. by rewrite decide_True by done.
  - intros l o Hle Hlt. rewrite (SearchTracks_defaults c query l o).
    rewrite decide_True by done. by rewrite decide_True by done.
Qed.

Lemma GetTrack_Ok (c : APIClient) (id : string) (w w' : World) (tr : Track) :
  GetTrack c id w = (Ok tr, w')
  → ∃ req resp payload first rest,
      id ≠ "" ∧ NewRequest (apiBase +:+ "/tracks/" +:+ id) = Ok req
      ∧ @Do (httpClient c) (sent w) (attachHeaders c req) = Ok resp
      ∧ StatusCode resp = 200
      ∧ json_Decode_track (resp_Body resp) = Ok payload
      ∧ track_Result payload = first :: rest
      ∧ tr = mapTrack first.
Proof.
  unfold GetTrack. case_decide as Hid; [done|]. run.
  destruct (NewRequest _) as [req|e] eqn:Hreq; [|done].
  destruct (Do _ _) as [resp|e] eqn:Hdo; [|done].
  case_decide as Hs; [done|].
  destruct (json_Decode_track _) as [payload|e] eqn:Hp; [|done].
  destruct (track_Result payload) as [|first rest] eqn:Hr; [done|].
  intros [= <- <-]. exists req, resp, payload, first, rest.
  split_and!; try done; by destruct (decide (StatusCode resp = 200)).
Qed.

Lemma SearchTracks_Ok (c : APIClient) (query : string) (limit offset : Z)
    (w w' : World) (tracks : list Track) :
  SearchTracks c query limit offset w = (Ok tracks, w')
  → ∃ results, tracks = mapTrack <$> results.
Proof.
  rewrite SearchTracks_defaults.
  rewrite SearchTracks_run by (case_decide; lia).
  case_decide; [done|].
  destruct (url_Parse_error _); [done|]. simpl.
  destruct (Do _ _) as [resp|e]; [|done].
  case_decide; [done|].
  destruct (json_Decode_search _) as [payload|e]; [|done].
  intros [= <- <-]. eauto.
Qed.

Lemma SearchTracks_Ok_payload (c : APIClient) (query : string)
    (limit offset : Z) (w w' : World) (tracks : list Track) :
  SearchTracks c query limit offset w = (Ok tracks, w')
  → ∃ req resp payload,
      sent w' = sent w ++ [req]
      ∧ @Do (httpClient c) (sent w) req = Ok resp
      ∧ StatusCode resp = 200
      ∧ json_Decode_search (resp_Body resp) = Ok payload
      ∧ tracks = mapTrack <$> take (length tracks) (search_Results payload).
Proof.
  rewrite SearchTracks_defaults.
  rewrite SearchTracks_run by (case_decide; lia).
  case_decide; [done|].
  destruct (url_Parse_error _); [done|]. simpl.
  destruct (Do _ _) as [resp|e] eqn:Hdo; [|done].
  destruct (decide (StatusCode resp ≠ 200)) as [Hs|Hs]; [done|].
  destruct (json_Decode_search _) as [payload|e] eqn:Hp; [|done].
  intros [= <- <-]. eexists _, resp, payload. split_and!; try done.
  - by destruct (decide (StatusCode resp = 200)).
  - rewrite length_fmap, length_take. f_equal.
    generalize (Z.to_nat (if decide (limit <= 0) then 10 else limit)).
    intros n.
    destruct (decide (n ≤ length (search_Results payload))%nat).
    + by rewrite Nat.min_l.
    + rewrite Nat.min_r by lia. by rewrite !take_ge by lia.
Qed.

(** C7, as the code has it.  The Track that [GetTrack] returns for a
    page answered with 200 is mapped from the first entry of the decoded
    payload and its ID is the id text of that entry, unchanged: it is
    returned as a success whether that id is empty or not, and is
    non-empty exactly when the entry carries an id.  Likewise the IDs of
    the Tracks that [SearchTracks] returns are, in order, the id texts
    of the first entries of the decoded page.  Nothing in the mapping or
    in the two operations rejects an entry whose id is empty. *)
Theorem Track_ID_is_payload_id (c : APIClient) (w : World) :
  (∀ id resp payload first rest,
     id ≠ "" → url_Parse_error (apiBase +:+ "/tracks/" +:+ id) = None
     → @Do (httpClient c) (sent w)
         (attachHeaders c
            {| req_URL := apiBase +:+ "/tracks/" +:+ id; req_Header := ∅ |})
       = Ok resp
     → StatusCode resp = 200
     → json_Decode_track (resp_Body resp) = Ok payload
     → track_Result payload = first :: rest
     → ∃ tr, (GetTrack c id w).1 = Ok tr
             ∧ ID tr = dto_ID first
             ∧ (ID tr ≠ "" ↔ dto_ID first ≠ ""))
  ∧ (∀ id tr w', GetTrack c id w = (Ok tr, w')
       → ∃ resp payload first rest,
           @Do (httpClient c) (sent w)
             (attachHeaders c
                {| req_URL := apiBase +:+ "/tracks/" +:+ id;
                   req_Header := ∅ |})
           = Ok resp
           ∧ json_Decode_track (resp_Body resp) = Ok payload
           ∧ track_Result payload = first :: rest
           ∧ ID tr = dto_ID first
           ∧ (ID tr ≠ "" ↔ dto_ID first ≠ ""))
  ∧ (∀ query limit offset tracks w',
       SearchTracks c query limit offset w = (Ok tracks, w')
       → ∃ req resp payload,
           sent w' = sent w ++ [req]
           ∧ @Do (httpClient c) (sent w) req = Ok resp
           ∧ json_Decode_search (resp_Body resp) = Ok payload
           ∧ ID <$> tracks
             = dto_ID <$> take (length tracks) (search_Results payload)
           ∧ (Forall (λ tr, ID tr ≠ "") tracks
              ↔ Forall (λ t, dto_ID t ≠ "")
                  (take (length tracks) (search_Results payload))))
  ∧ (∀ t, ID (mapTrack t) = dto_ID t).
Proof.
  split_and!.
  - intros id resp payload first rest Hid Hu Hdo Hs Hp Hr.
    exists (mapTrack first). split_and!; try done.
    unfold GetTrack, NewRequest. rewrite decide_False by done. run.
    rewrite Hu, Hdo. rewrite decide_False by (by intros []).
    by rewrite Hp, Hr.
  - intros id tr w' (req & resp & payload & first & rest & _ & Hreq & Hdo
                     & _ & Hp & Hr & ->)%GetTrack_Ok.
    unfold NewRequest in Hreq.
    destruct (url_Parse_error _); [done|]. injection Hreq as <-.
    by exists resp, payload, first, rest.
  - intros query limit offset tracks w'
      (req & resp & payload & Hsent & Hdo & _ & Hp & Htr)%SearchTracks_Ok_payload.
    exists req, resp, payload. split_and!; try done.
    + rewrite Htr at 1. rewrite <- list_fmap_compose.
      by apply list_fmap_ext.
    + rewrite Htr at 1. by rewrite Forall_fmap.
  - done.
Qed.

End paging.

Lemma validation_before_any_request_witness :
  @SearchTracks (Fixture.catalog (Fixture.dto "42" "Title" 1000 []))
    Fixture.searching "  " 10 0 Fixture.world
  = (Err (Errorf "query is empty"), Fixture.world).
Proof.
  exact (proj1
    (@validation_before_any_request
       (Fixture.catalog (Fixture.dto "42" "Title" 1000 []))
       Fixture.searching Fixture.world) "  " 10 0 eq_refl).
Defined.

Lemma SearchTracks_paging_witness :
  sent (@SearchTracks (Fixture.catalog (Fixture.dto "42" "Title" 1000 []))
          Fixture.searching "abc" 10 25 Fixture.world).2
  = sent Fixture.world
    ++ [attachHeaders Fixture.searching
          {| req_URL :=
               "https://api.music.yandex.net/search?nococrrect=true&page=2&text=abc&type=track";
             req_Header := ∅ |}]
  ∧ (@SearchTracks (Fixture.catalog (Fixture.dto "42" "Title" 1000 []))
       Fixture.searching "abc" 10 25 Fixture.world).1
    = Ok [mapTrack (Fixture.dto "42" "Title" 1000 [])].
Proof.
  pose proof
    (@SearchTracks_paging (Fixture.catalog (Fixture.dto "42" "Title" 1000 []))
       Fixture.searching "abc" 10 25 2 Fixture.world
       "https://api.music.yandex.net/search?nococrrect=true&page=2&text=abc&type=track")
    as Hpaging.
  destruct Hpaging as (Hsent & _ & Hpage & _).
  - lia.
  - lia.
  - lia.
  - vm_compute. reflexivity.
  - split.
    + apply Hsent; [vm_compute; discriminate|reflexivity].
    + refine (proj1 (Hpage (Fixture.respond 200 "page")
                {| search_Results := [Fixture.dto "42" "Title" 1000 []] |}
                _ eq_refl _ eq_refl _)).
      * vm_compute. discriminate.
      * vm_compute. reflexivity.
      * vm_compute. reflexivity.
Defined.

Lemma Track_ID_is_payload_id_witness :
  ∃ tr,
    (@GetTrack (Fixture.catalog (Fixture.dto "42" "Title" 1000 []))
       (Fixture.server "42" (Fixture.respond 200 "AUDIO")) "42"
       Fixture.world).1 = Ok tr
    ∧ ID tr = "42"
    ∧ (ID tr ≠ "" ↔ "42" ≠ "").
Proof.
  refine (proj1
    (@Track_ID_is_payload_id
       (Fixture.catalog (Fixture.dto "42" "Title" 1000 []))
       (Fixture.server "42" (Fixture.respond 200 "AUDIO")) Fixture.world)
    "42" (Fixture.respond 200 "meta")
    {| track_Result := [Fixture.dto "42" "Title" 1000 []] |}
    (Fixture.dto "42" "Title" 1000 []) [] _ eq_refl _ eq_refl _ eq_refl).
  - discriminate.
  - vm_compute. reflexivity.
  - vm_compute. reflexivity.
Defined.

(** C7, as stated, fails: a payload entry without id decodes to a DTO
    whose id is empty, and [GetTrack] returns the Track mapped from it,
    with an empty ID, as a success. *)
Lemma GetTrack_Track_with_empty_ID :
  (@GetTrack (Fixture.catalog (Fixture.dto "" "Untitled" 1000 []))
     (Fixture.server "7" (Fixture.respond 200 "AUDIO")) "7" Fixture.world).1
  = Ok (mapTrack (Fixture.dto "" "Untitled" 1000 []))
  ∧ ID (mapTrack (Fixture.dto "" "Untitled" 1000 [])) = "".
Proof. split; vm_compute; reflexivity. Qed.

(** ** The temporary directory of DownloadTrack *)

Lemma RemoveAll_below (dir p : path) (fs : gmap path node) :
  dir `prefix_of` p → os.RemoveAll dir fs !! p = None.
Proof.
  intros Hp. unfold os.RemoveAll. apply map_lookup_filter_None. right.
  intros x _ Hn. by apply Hn.
Qed.


Lemma Mkdir_Ok (p : path) (fs fs' : gmap path node) :
  os.Mkdir p fs = Ok fs' → fs !! p = None ∧ fs' = <[p := NDir]> fs.
Proof.
  unfold os.Mkdir. destruct p as [|x l]; [done|].
  repeat case_match; try done. by intros [= <-].
Qed.

Lemma MkdirTemp_go_fresh (tries : nat) (rand : nat → N) (dir : path)
    (prefix : string) (d d' : nat) (fs fs' : gmap path node) (tmpDir : path) :
  os.MkdirTemp_go tries rand dir prefix d fs = (Ok tmpDir, d', fs')
  → fs !! tmpDir = None ∧ fs' = <[tmpDir := NDir]> fs
    ∧ ∃ n, tmpDir = dir ++ [prefix +:+ pretty (rand n)].
Proof.
  revert d. induction tries as [|tries IH]; intros d; simpl;
    destruct (os.Mkdir _ fs) as [fs1|e] eqn:Hm.
  - intros [= <- <- <-]. apply Mkdir_Ok in Hm as [? ?]. eauto.
  - by case_decide.
  - intros [= <- <- <-]. apply Mkdir_Ok in Hm as [? ?]. eauto.
  - case_decide; [apply IH|done].
Qed.

Section temporary_directory.
Context `{GoLib}.

(** When the retrieval step of [DownloadTrack] fails, whatever client
    the service runs on, the temporary directory that was created for
    the download, and everything the step left below it, is gone from
    the file system the error is returned with. *)
Lemma DownloadTrack_failure_removes_tmpDir (s : Service) (id : string)
    (w w' : World) (e : error) :
  DownloadTrack s id w = (Err (Wrapf "download" e), w')
  → ∃ meta downloadURL w1 w2 w3 tmpDir,
      Client.GetTrack (client s) id w = (Ok meta, w1)
      ∧ Client.GetDownloadURL (client s) id w1 = (Ok downloadURL, w2)
      ∧ MkdirTemp "ym-bot-" w2 = (Ok tmpDir, w3)
      ∧ fs w2 !! tmpDir = None
      ∧ fs w3 !! tmpDir = Some NDir
      ∧ ∀ p, tmpDir `prefix_of` p → fs w' !! p = None.
Proof.
  unfold DownloadTrack, wrap. run.
  destruct (Client.GetTrack _ _ _) as [[meta|?] w1] eqn:H1; [|done].
  destruct (Client.GetDownloadURL _ _ _) as [[url|?] w2] eqn:H2; [|done].
  destruct (MkdirTemp _ _) as [[tmpDir|?] w3] eqn:H3; [|done].
  destruct (Client.DownloadToFile _ _ _ _) as [[?|e'] w4] eqn:H4; [done|].
  intros [= <- <-]. exists meta, url, w1, w2, w3, tmpDir.
  split_and!; try done.
  - unfold MkdirTemp in H3.
    destruct (os.MkdirTemp_go _ _ _ _ _ _) as [[r d] fs'] eqn:Hgo.
    injection H3 as -> <-.
    by apply MkdirTemp_go_fresh in Hgo as [? _].
  - unfold MkdirTemp in H3.
    destruct (os.MkdirTemp_go _ _ _ _ _ _) as [[r d] fs'] eqn:Hgo.
    injection H3 as -> <-. simpl.
    apply MkdirTemp_go_fresh in Hgo as (_ & -> & _).
    apply lookup_insert_eq.
  - intros p Hp. simpl. by apply RemoveAll_below.
Qed.

End temporary_directory.

(** C6 at a track whose artist name holds a path separator.  Every step
    succeeds, yet the file name "AC/DC - Thunderstruck.mp3" is joined
    onto the temporary directory as two components: the returned path
    lies in the subdirectory AC, its name is "DC - Thunderstruck.mp3",
    the temporary directory holds no file of the promised name, and
    removing the parent of the returned path, as the caller does, leaves
    the temporary directory behind. *)
Theorem DownloadTrack_separator_in_artist :
  (@DownloadTrack (Fixture.catalog Fixture.acdc)
     (Fixture.service Fixture.acdc "42" (Fixture.respond 200 "AUDIO"))
     "42" Fixture.world).1
  = Ok (mapTrack Fixture.acdc,
        ["tmp"; "ym-bot-0"; "AC"; "DC - Thunderstruck.mp3"])
  ∧ ArtistsString (mapTrack Fixture.acdc) +:+ " - "
      +:+ Title (mapTrack Fixture.acdc) +:+ ".mp3"
    = "AC/DC - Thunderstruck.mp3"
  ∧ map_to_list
      (fs (@DownloadTrack (Fixture.catalog Fixture.acdc)
             (Fixture.service Fixture.acdc "42" (Fixture.respond 200 "AUDIO"))
             "42" Fixture.world).2)
    = [(["tmp"], NDir);
       (["tmp"; "ym-bot-0"; "AC"], NDir);
       (["tmp"; "ym-bot-0"; "AC"; "DC - Thunderstruck.mp3"], NFile "AUDIO");
       (["tmp"; "ym-bot-0"], NDir)]
  ∧ filepath.Dir ["tmp"; "ym-bot-0"; "AC"; "DC - Thunderstruck.mp3"]
    ≠ ["tmp"; "ym-bot-0"]
  ∧ filepath.Base ["tmp"; "ym-bot-0"; "AC"; "DC - Thunderstruck.mp3"]
    ≠ "AC/DC - Thunderstruck.mp3"
  ∧ os.RemoveAll
      (filepath.Dir ["tmp"; "ym-bot-0"; "AC"; "DC - Thunderstruck.mp3"])
      (fs (@DownloadTrack (Fixture.catalog Fixture.acdc)
             (Fixture.service Fixture.acdc "42" (Fixture.respond 200 "AUDIO"))
             "42" Fixture.world).2)
    !! ["tmp"; "ym-bot-0"] = Some NDir.
Proof.
  split_and!.
  - vm_compute. reflexivity.
  - vm_compute. reflexivity.
  - vm_compute. reflexivity.
  - vm_compute. discriminate.
  - vm_compute. discriminate.
  - vm_compute. reflexivity.
Qed.

(** The same slip lets [..] in a title climb out of the temporary
    directory: the file is written into the shared temporary root, which
    is then the parent of the returned path. *)
Lemma DownloadTrack_dots_in_title :
  (@DownloadTrack (Fixture.catalog Fixture.dotted)
     (Fixture.service Fixture.dotted "43" (Fixture.respond 200 "AUDIO"))
     "43" Fixture.world).1
  = Ok (mapTrack Fixture.dotted, ["tmp"; "x.mp3"])
  ∧ filepath.Dir ["tmp"; "x.mp3"] = @os_TempDir (Fixture.catalog Fixture.dotted)
  ∧ Fixture.world.(fs) !! ["tmp"] = Some NDir.
Proof. split_and!; vm_compute; reflexivity. Qed.

(** *** A name without separator lands in the temporary directory *)

Lemma split_plain (name : string) :
  "/"%char ∉ String.list_ascii_of_string name → filepath.split name = [name].
Proof.
  induction name as [|ch rest IH]; simpl; [done|].
  intros Hno. destruct (Ascii.eqb_spec ch "/") as [->|_].
  - exfalso. apply Hno. by left.
  - rewrite IH; [done|]. intros Hin. apply Hno. by right.
Qed.

Lemma Join_plain (dir : path) (name : string) :
  "/"%char ∉ String.list_ascii_of_string name
  → name ≠ "" → name ≠ "." → name ≠ ".."
  → filepath.Join dir name = dir ++ [name].
Proof.
  intros Hno H0 H1 H2. unfold filepath.Join. rewrite split_plain by done.
  simpl. unfold filepath.cleanStep. by rewrite !decide_False.
Qed.

Lemma Dir_snoc (dir : path) (name : string) :
  filepath.Dir (dir ++ [name]) = dir.
Proof. unfold filepath.Dir. apply removelast_last. Qed.

Lemma string_length_app (a b : string) :
  String.length (a +:+ b) = (String.length a + String.length b)%nat.
Proof.
  induction a as [|x a IH]; [done|].
  change (S (String.length (a +:+ b))
          = S (String.length a + String.length b)).
  by rewrite IH.
Qed.

Lemma filename_long (artists title : string) :
  (7 ≤ String.length (artists +:+ " - " +:+ title +:+ ".mp3"))%nat.
Proof. rewrite !string_length_app. simpl. lia. Qed.

Lemma String_absolute (p : path) :
  ¬ (filepath.String p = "" ∨ filepath.String p = ".").
Proof. destruct p; intros [E|E]; discriminate E. Qed.

Lemma MkdirAll_go_Ok (above : path) (below : list string)
    (fs fs' : gmap path node) :
  os.MkdirAll_go above below fs = Ok fs'
  → ∀ q, fs' !! q = fs !! q
         ∨ (fs !! q = None ∧ fs' !! q = Some NDir
            ∧ q `prefix_of` above ++ below).
Proof.
  revert above fs. induction below as [|c rest IH]; intros above fs; simpl.
  - intros [= <-] q. by left.
  - destruct (fs !! (above ++ [c])) as [[|content]|] eqn:Hl; [|done|].
    + intros Hgo q. destruct (IH _ _ Hgo q) as [?|(? & ? & Hp)]; [by left|].
      right. by rewrite <- app_assoc in Hp.
    + intros Hgo q. destruct (IH _ _ Hgo q) as [E|(Hn & Hd & Hp)].
      * destruct (decide (q = above ++ [c])) as [->|Hne].
        -- right. rewrite E, lookup_insert_eq. split_and!; [done|done|].
           rewrite (cons_middle c above rest), app_assoc. by apply prefix_app_r.
        -- left. by rewrite E, lookup_insert_ne.
      * destruct (decide (q = above ++ [c])) as [->|Hne].
        -- by rewrite lookup_insert_eq in Hn.
        -- right. rewrite lookup_insert_ne in Hn by done.
           by rewrite <- app_assoc in Hp.
Qed.

Section plain_name.
Context `{GoLib}.

Lemma GetTrack_fs (c : APIClient) (id : string) (w : World) :
  fs (GetTrack c id w).2 = fs w.
Proof.
  unfold GetTrack. run. repeat (case_match; simplify_eq; simpl; try done).
Qed.

Lemma resolveDownloadInfoURL_fs (c : APIClient) (infoURL id : string)
    (w : World) :
  fs (resolveDownloadInfoURL c infoURL id w).2 = fs w.
Proof.
  unfold resolveDownloadInfoURL. run.
  repeat (case_match; simplify_eq; simpl; try done).
Qed.

Lemma GetDownloadURL_fs (c : APIClient) (id : string) (w : World) :
  fs (GetDownloadURL c id w).2 = fs w.
Proof.
  unfold GetDownloadURL. run.
  repeat (case_match; simplify_eq; simpl; try done);
    by rewrite resolveDownloadInfoURL_fs.
Qed.

Lemma ensureDir_Ok (dir : path) (w w' : World) (u : unit) :
  ensureDir dir w = (Ok u, w')
  → sent w' = sent w
    ∧ ∀ q, fs w' !! q = fs w !! q
           ∨ (fs w !! q = None ∧ fs w' !! q = Some NDir ∧ q `prefix_of` dir).
Proof.
  unfold ensureDir. rewrite decide_False by apply String_absolute.
  destruct (os.MkdirAll _ _) as [fs1|e] eqn:Hm; [|done].
  intros E. simplify_eq. split; [done|]. intros q. simpl.
  by apply (MkdirAll_go_Ok [] dir).
Qed.

Lemma DownloadToFile_Ok (c : APIClient) (url : string) (dest : path)
    (w w' : World) (u : unit) :
  DownloadToFile c url dest w = (Ok u, w')
  → ∃ bytes,
      fs w' !! dest = Some (NFile bytes)
      ∧ ∀ q, q ≠ dest
             → fs w' !! q = fs w !! q
               ∨ (fs w !! q = None ∧ fs w' !! q = Some NDir
                  ∧ q `prefix_of` filepath.Dir dest).
Proof.
  unfold DownloadToFile. case_decide; [done|]. run.
  destruct (NewRequest _) as [req|?]; [|done].
  destruct (Do _ _) as [resp|?]; [|done].
  case_decide; [done|]. unfold createFile, io_Copy.
  destruct (ensureDir _ _) as [[?|?] w1] eqn:He1; [|done].
  destruct (ensureDir _ w1) as [[?|?] w2] eqn:He2; [|done].
  destruct (os.Create _ _) as [fs3|?] eqn:He3; [|done]. simpl.
  destruct (body_err _); [done|]. intros E. simplify_eq. simpl.
  assert (fs3 = <[dest := NFile ""]> (fs w2)) as ->.
  { unfold os.Create in He3. repeat case_match; by simplify_eq. }
  unfold os.Write. rewrite lookup_insert_eq.
  eexists. split; [apply lookup_insert_eq|].
  intros q Hq. rewrite !lookup_insert_ne by done.
  apply ensureDir_Ok in He1 as [_ He1]. apply ensureDir_Ok in He2 as [_ He2].
  simpl in *.
  destruct (He2 q) as [E2|(N2 & D2 & P2)], (He1 q) as [E1|(N1 & D1 & P1)].
  - left. by rewrite E2.
  - right. split_and!; [done|by rewrite E2|done].
  - right. split_and!; [by rewrite <- E1|done|done].
  - by rewrite N2 in D1.
Qed.

(** When artists and title hold no path separator, a successful
    [DownloadTrack] returns a path whose parent is the directory made
    for this download, absent before, and which holds the file named
    [{artists} - {title}.mp3] and nothing else.  The file system the
    service starts from is a tree: what lies above an entry is a
    directory. *)
Lemma DownloadTrack_success_plain_name (c : APIClient) (id : string)
    (w w' : World) (meta : Track) (dest : path) :
  (∀ p q, is_Some (fs w !! p) → q `prefix_of` p → q ≠ []
          → fs w !! q = Some NDir)
  → "/"%char ∉ String.list_ascii_of_string
                 (ArtistsString meta +:+ " - " +:+ Title meta +:+ ".mp3")
  → DownloadTrack {| client := APIClient_Client c |} id w
    = (Ok (meta, dest), w')
  → ∃ tmpDir bytes,
      fs w !! tmpDir = None
      ∧ dest = tmpDir ++ [ArtistsString meta +:+ " - " +:+ Title meta
                            +:+ ".mp3"]
      ∧ filepath.Dir dest = tmpDir
      ∧ fs w' !! tmpDir = Some NDir
      ∧ fs w' !! dest = Some (NFile bytes)
      ∧ ∀ p, tmpDir `prefix_of` p → is_Some (fs w' !! p)
             → p = tmpDir ∨ p = dest.
Proof.
  intros Htree Hplain. unfold DownloadTrack, wrap. run.
  pose proof (GetTrack_fs c id w) as F1.
  destruct (GetTrack c id w) as [[meta'|?] w1]; [|done].
  pose proof (GetDownloadURL_fs c id w1) as F2.
  destruct (GetDownloadURL c id w1) as [[url|?] w2]; [|done].
  simpl in F1, F2.
  destruct (MkdirTemp _ w2) as [[tmpDir|?] w3] eqn:H3; [|done].
  destruct (DownloadToFile _ _ _ _) as [[u|?] w4] eqn:H4; [|done].
  intros [= -> <- <-].
  unfold MkdirTemp in H3.
  destruct (os.MkdirTemp_go _ _ _ _ _ _) as [[r d] fs3] eqn:Hgo.
  injection H3 as -> <-.
  apply MkdirTemp_go_fresh in Hgo as (Hfresh & -> & n & Hname).
  rewrite F2, F1 in Hfresh.
  assert (Hroot : tmpDir ≠ []).
  { rewrite Hname. intros E. by apply app_nil in E as [_ ?]. }
  clear Hname.
  set (filename := ArtistsString meta +:+ " - " +:+ Title meta +:+ ".mp3")
    in *.
  assert (Hlen := filename_long (ArtistsString meta) (Title meta)).
  fold filename in Hlen.
  rewrite Join_plain in H4 |- *
    by (try done; intros E; rewrite E in Hlen; simpl in Hlen; lia).
  apply DownloadToFile_Ok in H4 as (bytes & Hfile & Hrest).
  rewrite Dir_snoc in Hrest. simpl in Hrest.
  assert (Hne : tmpDir ≠ tmpDir ++ [filename]).
  { intros E. apply (f_equal length) in E.
    rewrite length_app in E. simpl in E. lia. }
  exists tmpDir, bytes. split_and!; try done.
  - apply Dir_snoc.
  - destruct (Hrest tmpDir Hne) as [E|(_ & E & _)]; [|done].
    by rewrite E, lookup_insert_eq.
  - intros p Hp Hsome.
    destruct (decide (p = tmpDir)) as [|Hp1]; [by left|].
    destruct (decide (p = tmpDir ++ [filename])) as [|Hp2]; [by right|].
    exfalso. destruct (Hrest p Hp2) as [E|(_ & _ & Hq)].
    + rewrite E, lookup_insert_ne, F2, F1 in Hsome by done.
      pose proof (Htree p tmpDir Hsome Hp Hroot) as Hd.
      by rewrite Hfresh in Hd.
    + apply Hp1. by apply (anti_symm prefix).
Qed.

End plain_name.

(** * Further properties of the client, the service and the transport *)

(** ** Requests and their headers *)

Lemma attachHeaders_stamped (c : APIClient) (url : string) :
  stamped c (attachHeaders c {| req_URL := url; req_Header := ∅ |}).
Proof.
  unfold stamped, attachHeaders, Header_Set; simpl.
  destruct (decide (token c ≠ "")) as [Ht|Ht].
  - rewrite decide_False by done. split.
    + rewrite lookup_insert_ne by done. apply lookup_insert_eq.
    + apply lookup_insert_eq.
  - rewrite decide_True by (by destruct (decide (token c = ""))). split.
    + apply lookup_insert_eq.
    + by rewrite lookup_insert_ne.
Qed.

Lemma sends_refl (c : APIClient) (k : nat) (w : World) : sends c k w w.
Proof. exists []. rewrite app_nil_r. split_and!; [done|simpl; lia|done]. Qed.

Lemma sends_one (c : APIClient) (k : nat) (w : World) (url : string) :
  sends c (S k) w
    (set_sent (sent w ++ [attachHeaders c {| req_URL := url; req_Header := ∅ |}]) w).
Proof.
  eexists. split_and!; [done|simpl; lia|].
  constructor; [apply attachHeaders_stamped|done].
Qed.

Lemma sends_one_log (c : APIClient) (k : nat) (w w' : World) (url : string) :
  sent w' = sent w ++ [attachHeaders c {| req_URL := url; req_Header := ∅ |}]
  → sends c (S k) w w'.
Proof.
  intros E. eexists. split_and!; [exact E|simpl; lia|].
  constructor; [apply attachHeaders_stamped|done].
Qed.

Lemma sends_trans (c : APIClient) (j k : nat) (w1 w2 w3 : World) :
  sends c j w1 w2 → sends c k w2 w3 → sends c (j + k) w1 w3.
Proof.
  intros (l1 & E1 & L1 & F1) (l2 & E2 & L2 & F2). exists (l1 ++ l2).
  split_and!.
  - by rewrite E2, E1, app_assoc.
  - rewrite length_app. lia.
  - by apply Forall_app.
Qed.

Lemma sends_same_log (c : APIClient) (k : nat) (w1 w2 w3 : World) :
  sent w3 = sent w2 → sends c k w1 w2 → sends c k w1 w3.
Proof. intros E (l & E1 & L1 & F1). exists l. by rewrite E. Qed.

Section requests.
Context `{GoLib}.

Lemma NewRequest_Ok (url : string) (req : Request) :
  NewRequest url = Ok req → req = {| req_URL := url; req_Header := ∅ |}.
Proof. unfold NewRequest. destruct (url_Parse_error url); by intros [= <-]. Qed.

Lemma SearchTracks_sends (c : APIClient) (query : string) (limit offset : Z)
    (w : World) :
  sends c 1 w (SearchTracks c query limit offset w).2.
Proof.
  unfold SearchTracks. case_decide; [apply sends_refl|]. run.
  destruct (NewRequest _) as [req|?] eqn:Hr; [|apply sends_refl].
  apply NewRequest_Ok in Hr as ->.
  repeat case_match; simpl; apply sends_one.
Qed.

Lemma GetTrack_sends (c : APIClient) (id : string) (w : World) :
  sends c 1 w (GetTrack c id w).2.
Proof.
  unfold GetTrack. case_decide; [apply sends_refl|]. run.
  destruct (NewRequest _) as [req|?] eqn:Hr; [|apply sends_refl].
  apply NewRequest_Ok in Hr as ->.
  repeat case_match; simpl; apply sends_one.
Qed.

Lemma resolveDownloadInfoURL_sends (c : APIClient) (infoURL id : string)
    (w : World) :
  sends c 1 w (resolveDownloadInfoURL c infoURL id w).2.
Proof.
  unfold resolveDownloadInfoURL. case_decide; [apply sends_refl|]. run.
  destruct (NewRequest _) as [req|?] eqn:Hr; [|apply sends_refl].
  apply NewRequest_Ok in Hr as ->.
  repeat case_match; simpl; apply sends_one.
Qed.

Lemma GetDownloadURL_sends (c : APIClient) (id : string) (w : World) :
  sends c 2 w (GetDownloadURL c id w).2.
Proof.
  unfold GetDownloadURL. case_decide; [apply sends_refl|]. run.
  destruct (NewRequest _) as [req|?] eqn:Hr; [|apply sends_refl].
  apply NewRequest_Ok in Hr as ->.
  repeat case_match; simpl; try apply sends_one.
  eapply (sends_trans c 1 1); [apply sends_one|].
  apply resolveDownloadInfoURL_sends.
Qed.

Lemma ensureDir_sent (dir : path) (w : World) :
  sent (ensureDir dir w).2 = sent w.
Proof. unfold ensureDir. repeat case_match; done. Qed.

Lemma createFile_sent (p : path) (w : World) :
  sent (createFile p w).2 = sent w.
Proof.
  unfold createFile. pose proof (ensureDir_sent (filepath.Dir p) w) as E.
  destruct (ensureDir _ w) as [[?|?] w1]; simpl in *; [|done].
  by destruct (os.Create _ _).
Qed.

Lemma DownloadToFile_sends (c : APIClient) (url : string) (dest : path)
    (w : World) :
  sends c 1 w (DownloadToFile c url dest w).2.
Proof.
  unfold DownloadToFile. case_decide; [apply sends_refl|]. run.
  destruct (NewRequest _) as [req|?] eqn:Hr; [|apply sends_refl].
  apply NewRequest_Ok in Hr as ->.
  destruct (Do _ _) as [resp|?]; [|apply sends_one].
  case_decide; [apply sends_one|].
  apply sends_one_log with (url := url).
  match goal with
  | |- sent (match ensureDir ?d ?w0 with _ => _ end).2 = _ =>
      pose proof (ensureDir_sent d w0) as E1;
      destruct (ensureDir d w0) as [[?|?] w1]; simpl in E1
  end; [|done].
  pose proof (createFile_sent dest w1) as E2.
  destruct (createFile dest w1) as [[?|?] w2]; simpl in E2 |- *;
    [|by rewrite E2, E1].
  unfold io_Copy. destruct (body_err _); simpl; by rewrite E2, E1.
Qed.

End requests.

Section budget.
Context `{GoLib}.

Lemma MkdirTemp_sent (prefix : string) (w : World) :
  sent (MkdirTemp prefix w).2 = sent w.
Proof.
  unfold MkdirTemp. by destruct (os.MkdirTemp_go _ _ _ _ _ _) as [[? ?] ?].
Qed.

Lemma StreamURL_sends (c : APIClient) (id : string) (w : World) :
  sends c 3 w (StreamURL {| client := APIClient_Client c |} id w).2.
Proof.
  unfold StreamURL, wrap. run.
  pose proof (GetTrack_sends c id w) as S1.
  destruct (GetTrack c id w) as [[meta|?] w1]; simpl in S1;
    [|by apply (sends_trans c 1 2 w w1 w1), sends_refl].
  pose proof (GetDownloadURL_sends c id w1) as S2.
  destruct (GetDownloadURL c id w1) as [[url|?] w2]; simpl in S2;
    by apply (sends_trans c 1 2 w w1 w2).
Qed.

Lemma DownloadTrack_sends (c : APIClient) (id : string) (w : World) :
  sends c 4 w (DownloadTrack {| client := APIClient_Client c |} id w).2.
Proof.
  unfold DownloadTrack, wrap. run.
  pose proof (GetTrack_sends c id w) as S1.
  destruct (GetTrack c id w) as [[meta|?] w1]; simpl in S1;
    [|by apply (sends_trans c 1 3 w w1 w1), sends_refl].
  pose proof (GetDownloadURL_sends c id w1) as S2.
  destruct (GetDownloadURL c id w1) as [[url|?] w2]; simpl in S2;
    [|by apply (sends_trans c 3 1 w w2 w2), sends_refl;
         apply (sends_trans c 1 2 w w1 w2)].
  pose proof (MkdirTemp_sent "ym-bot-" w2) as S3.
  destruct (MkdirTemp _ w2) as [[tmpDir|?] w3]; simpl in S3;
    [|by apply (sends_trans c 3 1 w w2 w3), (sends_same_log c 1 w2 w2), sends_refl;
         [apply (sends_trans c 1 2 w w1 w2)|]].
  apply (sends_trans c 3 1 w w2); [by apply (sends_trans c 1 2 w w1 w2)|].
  match goal with
  | |- sends _ _ _ (match DownloadToFile ?c0 ?u ?d ?w0 with _ => _ end).2 =>
      pose proof (DownloadToFile_sends c0 u d w0) as S4;
      destruct (DownloadToFile c0 u d w0) as [[?|?] w4]; simpl in S4 |- *
  end.
  - destruct S4 as (l & E & L & F). exists l. simpl. by rewrite E, S3.
  - destruct S4 as (l & E & L & F). exists l. simpl. by rewrite E, S3.
Qed.

(** X1. Every request that an operation of the client hands to the HTTP
    client carries the User-Agent of the bot, and the Authorization
    header "OAuth <token>" exactly when a token is configured. *)
Theorem requests_carry_headers (c : APIClient) (w : World) (r : Request) :
  r ∉ sent w →
  (∀ query limit offset,
     r ∈ sent (SearchTracks c query limit offset w).2 → stamped c r)
  ∧ (∀ id, r ∈ sent (GetTrack c id w).2 → stamped c r)
  ∧ (∀ id, r ∈ sent (GetDownloadURL c id w).2 → stamped c r)
  ∧ (∀ url dest, r ∈ sent (DownloadToFile c url dest w).2 → stamped c r)
  ∧ (stamped c r
     → req_Header r !! "User-Agent" = Some userAgent
       ∧ (token c = "" → req_Header r !! "Authorization" = None)
       ∧ (token c ≠ ""
          → req_Header r !! "Authorization" = Some ("OAuth " +:+ token c))).
Proof.
  intros Hnew.
  assert (Hin : ∀ k w', sends c k w w' → r ∈ sent w' → stamped c r).
  { intros k w' (l & E & _ & F). rewrite E, elem_of_app.
    intros [?|Hl]; [done|]. by apply (proj1 (Forall_forall _ _) F). }
  split_and!.
  - intros query limit offset. apply (Hin 1%nat), SearchTracks_sends.
  - intros id. apply (Hin 1%nat), GetTrack_sends.
  - intros id. apply (Hin 2%nat), GetDownloadURL_sends.
  - intros url dest. apply (Hin 1%nat), DownloadToFile_sends.
  - intros [Hua Hauth]. split_and!; [done| |].
    + intros Ht. by rewrite decide_True in Hauth.
    + intros Ht. by rewrite decide_False in Hauth.
Qed.

(** X2. No operation retries or sends a request twice: the log of
    requests only grows, by at most one request for [SearchTracks],
    [GetTrack] and [DownloadToFile], two for [GetDownloadURL], three for
    [StreamURL] and four for [DownloadTrack]. *)
Theorem request_budget (c : APIClient) (w : World) :
  (∀ query limit offset,
     sent w `prefix_of` sent (SearchTracks c query limit offset w).2
     ∧ (length (sent (SearchTracks c query limit offset w).2)
        ≤ length (sent w) + 1)%nat)
  ∧ (∀ id,
       sent w `prefix_of` sent (GetTrack c id w).2
       ∧ (length (sent (GetTrack c id w).2) ≤ length (sent w) + 1)%nat)
  ∧ (∀ id,
       sent w `prefix_of` sent (GetDownloadURL c id w).2
       ∧ (length (sent (GetDownloadURL c id w).2) ≤ length (sent w) + 2)%nat)
  ∧ (∀ url dest,
       sent w `prefix_of` sent (DownloadToFile c url dest w).2
       ∧ (length (sent (DownloadToFile c url dest w).2)
          ≤ length (sent w) + 1)%nat)
  ∧ (∀ id,
       sent w `prefix_of` sent (StreamURL {| client := APIClient_Client c |} id w).2
       ∧ (length (sent (StreamURL {| client := APIClient_Client c |} id w).2)
          ≤ length (sent w) + 3)%nat)
  ∧ (∀ id,
       sent w `prefix_of`
         sent (DownloadTrack {| client := APIClient_Client c |} id w).2
       ∧ (length (sent (DownloadTrack {| client := APIClient_Client c |} id w).2)
          ≤ length (sent w) + 4)%nat).
Proof.
  assert (Hb : ∀ k w', sends c k w w'
                → sent w `prefix_of` sent w'
                  ∧ (length (sent w') ≤ length (sent w) + k)%nat).
  { intros k w' (l & E & L & _). rewrite E. split; [by exists l|].
    rewrite length_app. lia. }
  split_and!; intros.
  - apply Hb, SearchTracks_sends.
  - apply Hb, GetTrack_sends.
  - apply Hb, GetDownloadURL_sends.
  - apply Hb, DownloadToFile_sends.
  - apply Hb, StreamURL_sends.
  - apply Hb, DownloadTrack_sends.
Qed.

End budget.

Lemma requests_carry_headers_witness :
  stamped (Fixture.server "42" (Fixture.respond 200 "AUDIO"))
    (attachHeaders (Fixture.server "42" (Fixture.respond 200 "AUDIO"))
       {| req_URL := apiBase +:+ "/tracks/42"; req_Header := ∅ |}).
Proof.
  refine (proj1 (proj2
    (@requests_carry_headers (Fixture.catalog Scenario.plain)
       (Fixture.server "42" (Fixture.respond 200 "AUDIO")) Fixture.world
       _ _)) "42" _).
  - vm_compute. by intros ?%elem_of_nil.
  - vm_compute. by left.
Defined.

(** ** Status codes and the excerpt of the body *)

Lemma substring_prefix (n : nat) (s : string) :
  ∃ rest, s = String.substring 0 n s +:+ rest
          ∧ String.length (String.substring 0 n s) = (n `min` String.length s)%nat.
Proof.
  revert s. induction n as [|n IH]; intros [|ch s]; simpl.
  - by exists "".
  - by exists (String ch s).
  - by exists "".
  - destruct (IH s) as (rest & E & L). exists rest. split.
    + change (String ch s = String ch (String.substring 0 n s +:+ rest)).
      by rewrite <- E.
    + by rewrite L.
Qed.

Section status.
Context `{GoLib}.

(** X3. Any status other than 200, the other 2xx codes included, makes
    an operation fail with its status error after the one request: the
    body is not decoded, and [DownloadToFile] creates no directory and no
    file. *)
Theorem only_status_200_succeeds (c : APIClient) (w : World) (url : string)
    (resp : Response) :
  url_Parse_error url = None
  → @Do (httpClient c) (sent w)
      (attachHeaders c {| req_URL := url; req_Header := ∅ |}) = Ok resp
  → StatusCode resp ≠ 200
  → (∀ query limit offset, TrimSpace query ≠ "" → 0 < limit → 0 ≤ offset
       → url = searchURL query (offset `div` limit)
       → SearchTracks c query limit offset w
         = (Err (statusError "search" resp),
            set_sent (sent w ++ [attachHeaders c
                        {| req_URL := url; req_Header := ∅ |}]) w))
    ∧ (∀ id, id ≠ "" → url = apiBase +:+ "/tracks/" +:+ id
         → GetTrack c id w
           = (Err (statusError "get track" resp),
              set_sent (sent w ++ [attachHeaders c
                          {| req_URL := url; req_Header := ∅ |}]) w))
    ∧ (∀ id, id ≠ ""
         → url = apiBase +:+ "/tracks/" +:+ id +:+ "/download-info"
         → GetDownloadURL c id w
           = (Err (statusError "download-info" resp),
              set_sent (sent w ++ [attachHeaders c
                          {| req_URL := url; req_Header := ∅ |}]) w))
    ∧ (∀ dest, url ≠ ""
         → DownloadToFile c url dest w
           = (Err (statusError "download" resp),
              set_sent (sent w ++ [attachHeaders c
                          {| req_URL := url; req_Header := ∅ |}]) w)).
Proof.
  intros Hu Hdo Hs. split_and!.
  - intros query limit offset Hq Hl Ho ->.
    rewrite SearchTracks_run by done. rewrite decide_False by done.
    rewrite Hu. simpl. rewrite Hdo. by rewrite decide_True.
  - intros id Hid ->. unfold GetTrack, NewRequest.
    rewrite decide_False by done. run. rewrite Hu, Hdo.
    by rewrite decide_True.
  - intros id Hid ->. unfold GetDownloadURL, NewRequest.
    rewrite decide_False by done. run. rewrite Hu, Hdo.
    by rewrite decide_True.
  - intros dest Hne. unfold DownloadToFile, NewRequest.
    rewrite decide_False by done. run. rewrite Hu, Hdo.
    by rewrite decide_True.
Qed.

(** X4. The body quoted in a status error is the beginning of the
    response body, at most 4096 bytes of it, and the whole body when it
    is no longer than that. *)
Theorem statusError_excerpt (what : string) (resp : Response) :
  ∃ excerpt rest,
    statusError what resp = StatusErrorf what (StatusCode resp) excerpt
    ∧ body_bytes (resp_Body resp) = excerpt +:+ rest
    ∧ (String.length excerpt ≤ 4096)%nat
    ∧ ((String.length (body_bytes (resp_Body resp)) ≤ 4096)%nat
       → excerpt = body_bytes (resp_Body resp)).
Proof.
  unfold statusError, ReadAllLimit.
  destruct (substring_prefix (N.to_nat 4096) (body_bytes (resp_Body resp)))
    as (rest & E & L).
  exists (String.substring 0 (N.to_nat 4096) (body_bytes (resp_Body resp))), rest.
  assert (N.to_nat 4096 = 4096%nat) as E4 by (by vm_compute).
  split_and!; [done|done|rewrite L, E4; apply Nat.le_min_l|].
  rewrite <- E4. intros Hlen.
  pose proof (f_equal String.length E) as El.
  rewrite string_length_app, L in El.
  assert (String.length rest = 0)%nat as Hr by lia.
  destruct rest; [|done]. rewrite E at 2.
  clear. induction (String.substring _ _ _) as [|ch s IH]; [done|].
  change (String ch s = String ch (s +:+ "")). by rewrite <- IH.
Qed.

End status.

Lemma only_status_200_succeeds_witness :
  @GetTrack (Fixture.catalog Scenario.plain)
    (Fixture.api [(apiBase +:+ "/tracks/42", Fixture.respond 206 "meta")])
    "42" Fixture.world
  = (Err (@statusError "get track" (Fixture.respond 206 "meta")),
     set_sent
       (sent Fixture.world
        ++ [attachHeaders
              (Fixture.api [(apiBase +:+ "/tracks/42", Fixture.respond 206 "meta")])
              {| req_URL := apiBase +:+ "/tracks/42"; req_Header := ∅ |}])
       Fixture.world).
Proof.
  refine (proj1 (proj2
    (@only_status_200_succeeds (Fixture.catalog Scenario.plain)
       (Fixture.api [(apiBase +:+ "/tracks/42", Fixture.respond 206 "meta")])
       Fixture.world (apiBase +:+ "/tracks/42") (Fixture.respond 206 "meta")
       eq_refl eq_refl _)) "42" _ eq_refl); discriminate.
Defined.

(** ** From the candidates to the resolved URL *)

Section candidates.
Context `{GoLib}.

(** X5. After a 200 answer of the download-info listing,
    [GetDownloadURL] goes on with the one candidate [pickDownloadInfo]
    chose: its URL is fetched next, with the track id handed on to the
    resolution; when that URL is empty the operation fails with
    "download url not found" without a second request, whatever URLs the
    other candidates carry, as it does for an empty listing. *)
Theorem GetDownloadURL_follows_choice (c : APIClient) (id : string)
    (w : World) (resp : Response) (payload : downloadInfoResponse) :
  id ≠ ""
  → url_Parse_error (apiBase +:+ "/tracks/" +:+ id +:+ "/download-info") = None
  → @Do (httpClient c) (sent w)
      (attachHeaders c
         {| req_URL := apiBase +:+ "/tracks/" +:+ id +:+ "/download-info";
            req_Header := ∅ |}) = Ok resp
  → StatusCode resp = 200
  → json_Decode_downloadInfo (resp_Body resp) = Ok payload
  → (download_Result payload = []
     → GetDownloadURL c id w
       = (Err (Errorf "download url not found"),
          set_sent (sent w ++ [attachHeaders c
            {| req_URL := apiBase +:+ "/tracks/" +:+ id +:+ "/download-info";
               req_Header := ∅ |}]) w))
    ∧ (download_Result payload ≠ []
       → info_URL (pickDownloadInfo (download_Result payload)) = ""
       → GetDownloadURL c id w
         = (Err (Errorf "download url not found"),
            set_sent (sent w ++ [attachHeaders c
              {| req_URL := apiBase +:+ "/tracks/" +:+ id +:+ "/download-info";
                 req_Header := ∅ |}]) w))
    ∧ (∀ first rest, download_Result payload = first :: rest
         → strings.EqualFold (info_Codec first) "mp3" = true
         → info_URL first = ""
         → (GetDownloadURL c id w).1 = Err (Errorf "download url not found"))
    ∧ (download_Result payload ≠ []
       → info_URL (pickDownloadInfo (download_Result payload)) ≠ ""
       → GetDownloadURL c id w
         = resolveDownloadInfoURL c
             (info_URL (pickDownloadInfo (download_Result payload))) id
             (set_sent (sent w ++ [attachHeaders c
                {| req_URL := apiBase +:+ "/tracks/" +:+ id +:+ "/download-info";
                   req_Header := ∅ |}]) w)).
Proof.
  intros Hid Hu Hdo Hs Hp.
  assert (Hrun : GetDownloadURL c id w
    = match download_Result payload with
      | [] => (Err (Errorf "download url not found"),
               set_sent (sent w ++ [attachHeaders c
                 {| req_URL := apiBase +:+ "/tracks/" +:+ id +:+ "/download-info";
                    req_Header := ∅ |}]) w)
      | _ =>
          if decide (info_URL (pickDownloadInfo (download_Result payload)) = "")
          then (Err (Errorf "download url not found"),
                set_sent (sent w ++ [attachHeaders c
                  {| req_URL := apiBase +:+ "/tracks/" +:+ id +:+ "/download-info";
                     req_Header := ∅ |}]) w)
          else resolveDownloadInfoURL c
                 (info_URL (pickDownloadInfo (download_Result payload))) id
                 (set_sent (sent w ++ [attachHeaders c
                   {| req_URL := apiBase +:+ "/tracks/" +:+ id +:+ "/download-info";
                      req_Header := ∅ |}]) w)
      end).
  { unfold GetDownloadURL, NewRequest. rewrite decide_False by done. run.
    rewrite Hu, Hdo. rewrite decide_False by (by intros []). rewrite Hp.
    destruct (download_Result payload); [done|]. by case_decide. }
  rewrite Hrun. split_and!.
  - by intros ->.
  - intros Hne He. destruct (download_Result payload); [done|].
    by rewrite decide_True.
  - intros first rest -> Hc He.
    assert (pickDownloadInfo (first :: rest) = first) as ->.
    { unfold pickDownloadInfo; simpl. by rewrite Hc. }
    by rewrite decide_True.
  - intros Hne He. destruct (download_Result payload); [done|].
    by rewrite decide_False.
Qed.

(** X6. A response that records the request it answers always resolves:
    for any body and any status the resolution returns a URL, the URL of
    that request when neither decoder yields one (the bytes read are
    empty, or the JSON decoder fails or gives an empty [src], and the XML
    decoder fails or leaves one of the four fields empty) and no Location
    header is set; the error "cannot resolve download url" arises only
    for a response without request. *)
Theorem resolveDownloadInfoURL_recorded_request (c : APIClient)
    (infoURL trackID : string) (w : World) (req : Request) (resp : Response)
    (u : string) :
  infoURL ≠ "" → NewRequest infoURL = Ok req
  → @Do (httpClient c) (sent w) (attachHeaders c req) = Ok resp
  → resp_Request resp = Some u
  → is_Ok (resolveDownloadInfoURL c infoURL trackID w).1 = true
    ∧ ((ReadAllLimit (resp_Body resp) (N.to_nat 8192) ≠ ""
        → (∀ src, json_Unmarshal_src
                    (ReadAllLimit (resp_Body resp) (N.to_nat 8192)) = Ok src
             → src = "")
          ∧ (∀ info, xml_Unmarshal
                       (ReadAllLimit (resp_Body resp) (N.to_nat 8192))
                     = Ok info
               → xml_Host info = "" ∨ xml_Path info = ""
                 ∨ xml_TS info = "" ∨ xml_S info = ""))
       → Header_Get (Header resp) "Location" = ""
       → (resolveDownloadInfoURL c infoURL trackID w).1 = Ok u)
    ∧ (∀ resp' e, resolveResponse resp' trackID = Err e
         → resp_Request resp' = None
           ∧ e = ResolveErrorf (StatusCode resp')).
Proof.
  intros Hu Hreq Hdo Hr.
  rewrite (resolveDownloadInfoURL_run _ _ _ _ _ _ Hu Hreq Hdo); simpl.
  split_and!.
  - unfold resolveResponse, redirectTarget. rewrite Hr.
    repeat case_match; done.
  - intros Hnone Hl.
    set (body := ReadAllLimit (resp_Body resp) (N.to_nat 8192)) in *.
    assert (Hj : body = ""
                 ∨ (∃ e, json_Unmarshal_src body = Err e)
                 ∨ json_Unmarshal_src body = Ok "").
    { destruct (decide (body = "")) as [|Hb]; [by left|right].
      destruct (Hnone Hb) as [Hsrc _].
      destruct (json_Unmarshal_src body) as [src|e]; [right|left; eauto].
      by rewrite (Hsrc src). }
    rewrite resolveResponse_no_json by done. fold body.
    assert (Hx : ∃ e, parseDownloadInfoXML body trackID = Err e).
    { unfold parseDownloadInfoXML.
      destruct (decide (body = "")) as [|Hb]; [eauto|].
      destruct (Hnone Hb) as [_ Hinfo].
      destruct (xml_Unmarshal body) as [info|e]; [|eauto].
      rewrite decide_True by (by apply Hinfo). eauto. }
    destruct Hx as [e ->].
    unfold redirectTarget. rewrite Hl, Hr.
    by rewrite (decide_False (P := "" ≠ "")) by (by intros []).
  - intros resp' e. unfold resolveResponse, redirectTarget.
    repeat case_match; try done; by intros [= <-].
Qed.

End candidates.

Lemma GetDownloadURL_follows_choice_witness :
  (@GetDownloadURL
     (Fixture.lib [] []
        [("info", [Fixture.codec "MP3" ""; Fixture.codec "aac" "https://storage/aac"])]
        [] [])
     (Fixture.server "42" (Fixture.respond 200 "AUDIO")) "42" Fixture.world).1
  = Err (Errorf "download url not found").
Proof.
  refine (proj1 (proj2 (proj2
    (@GetDownloadURL_follows_choice
       (Fixture.lib [] []
          [("info", [Fixture.codec "MP3" "";
                     Fixture.codec "aac" "https://storage/aac"])] [] [])
       (Fixture.server "42" (Fixture.respond 200 "AUDIO")) "42" Fixture.world
       (Fixture.respond 200 "info")
       {| download_Result :=
            [Fixture.codec "MP3" ""; Fixture.codec "aac" "https://storage/aac"] |}
       _ eq_refl eq_refl eq_refl eq_refl)))
    (Fixture.codec "MP3" "") [Fixture.codec "aac" "https://storage/aac"]
    eq_refl eq_refl eq_refl).
  discriminate.
Defined.

Lemma resolveDownloadInfoURL_recorded_request_witness :
  (@resolveDownloadInfoURL Scenario.yielding_nothing
     (Fixture.api [("https://storage/info",
                    Scenario.recorded 404 "partial" "https://storage/info")])
     "https://storage/info" "42" Fixture.world).1
  = Ok "https://storage/info".
Proof.
  refine (proj1 (proj2
    (@resolveDownloadInfoURL_recorded_request Scenario.yielding_nothing
       (Fixture.api [("https://storage/info",
                      Scenario.recorded 404 "partial" "https://storage/info")])
       "https://storage/info" "42" Fixture.world
       {| req_URL := "https://storage/info"; req_Header := ∅ |}
       (Scenario.recorded 404 "partial" "https://storage/info")
       "https://storage/info" _ eq_refl eq_refl eq_refl)) _ eq_refl).
  - discriminate.
  - intros _. split.
    + intros src. vm_compute. by intros [= <-].
    + intros info. vm_compute. intros [= <-]. by left.
Defined.

(** ** Directories and files *)

Lemma MkdirAll_go_keeps (above : path) (below : list string)
    (fs fs' : gmap path node) (q : path) (x : node) :
  os.MkdirAll_go above below fs = Ok fs' → fs !! q = Some x → fs' !! q = Some x.
Proof.
  intros Hgo Hq. destruct (MkdirAll_go_Ok _ _ _ _ Hgo q) as [E|(N & _ & _)].
  - by rewrite E.
  - by rewrite N in Hq.
Qed.

Lemma MkdirAll_go_idem (above : path) (below : list string)
    (fs fs' : gmap path node) :
  os.MkdirAll_go above below fs = Ok fs' → os.MkdirAll_go above below fs' = Ok fs'.
Proof.
  revert above fs. induction below as [|c rest IH]; intros above fs; simpl.
  - by intros [= <-].
  - destruct (fs !! (above ++ [c])) as [[|content]|] eqn:Hl; [|done|].
    + intros Hgo. rewrite (MkdirAll_go_keeps _ _ _ _ _ _ Hgo Hl). by eapply IH.
    + intros Hgo.
      rewrite (MkdirAll_go_keeps _ _ _ _ (above ++ [c]) NDir Hgo)
        by apply lookup_insert_eq.
      by eapply IH.
Qed.

Lemma MkdirAll_go_made (above : path) (below : list string)
    (fs fs' : gmap path node) :
  os.MkdirAll_go above below fs = Ok fs' → below ≠ []
  → fs' !! (above ++ below) = Some NDir.
Proof.
  revert above fs. induction below as [|c rest IH]; intros above fs; [done|].
  simpl. intros Hgo _.
  assert (Hstep : ∃ fs1, os.MkdirAll_go (above ++ [c]) rest fs1 = Ok fs'
                         ∧ fs1 !! (above ++ [c]) = Some NDir).
  { destruct (fs !! (above ++ [c])) as [[|content]|] eqn:Hl; [|done|].
    - by exists fs.
    - eexists. split; [exact Hgo|]. apply lookup_insert_eq. }
  destruct Hstep as (fs1 & Hgo1 & Hd).
  rewrite (cons_middle c above rest), app_assoc.
  destruct rest as [|c' rest'].
  - simpl in Hgo1. injection Hgo1 as <-. by rewrite app_nil_r.
  - by apply (IH _ fs1).
Qed.

Lemma MkdirAll_isDir (p : path) (fs fs' : gmap path node) :
  os.MkdirAll p fs = Ok fs' → os.isDir fs' p = true.
Proof.
  intros Hgo. destruct p as [|c rest]; [done|].
  unfold os.isDir. apply bool_decide_eq_true.
  by apply (MkdirAll_go_made [] (c :: rest) fs).
Qed.

Lemma nameError_refuses (p : path) (name : string) :
  name ∈ p
  → (255 < String.length name)%nat
    ∨ "000"%char ∈ String.list_ascii_of_string name
  → os.nameError p ≠ None.
Proof.
  intros Hin Hbad. unfold os.nameError.
  destruct (decide (Exists _ p)) as [|Hnul]; [done|].
  case_decide; [done|].
  destruct (decide (Exists _ p)) as [|Hlong]; [done|].
  destruct Hbad as [Hl|Hz].
  - destruct Hlong. apply Exists_exists. by exists name.
  - destruct Hnul. apply Exists_exists. by exists name.
Qed.

Section files.
Context `{GoLib}.

Lemma ensureDir_run (dir : path) (w : World) (fs1 : gmap path node) :
  os.MkdirAll dir (fs w) = Ok fs1 → ensureDir dir w = (Ok tt, set_fs fs1 w).
Proof.
  intros Hm. unfold ensureDir.
  rewrite decide_False by apply String_absolute. by rewrite Hm.
Qed.

Lemma createFile_run (p : path) (w : World) (fs1 : gmap path node) :
  os.MkdirAll (filepath.Dir p) (fs w) = Ok fs1 → p ≠ []
  → os.nameError p = None
  → fs1 !! p ≠ Some NDir
  → createFile p w = (Ok p, set_fs (<[p := NFile ""]> fs1) w).
Proof.
  intros Hm Hp Hn Hd. unfold createFile. rewrite (ensureDir_run _ _ _ Hm).
  simpl. unfold os.Create. rewrite Hn. destruct p as [|c rest]; [done|].
  rewrite (MkdirAll_isDir _ _ _ Hm).
  destruct (fs1 !! (c :: rest)) as [[|content]|] eqn:Hl; [done|done|done].
Qed.

Lemma DownloadToFile_run (c : APIClient) (url : string) (dest : path)
    (w : World) (resp : Response) (fs1 : gmap path node) :
  url ≠ "" → url_Parse_error url = None
  → @Do (httpClient c) (sent w)
      (attachHeaders c {| req_URL := url; req_Header := ∅ |}) = Ok resp
  → StatusCode resp = 200
  → os.MkdirAll (filepath.Dir dest) (fs w) = Ok fs1
  → dest ≠ [] → os.nameError dest = None → fs1 !! dest ≠ Some NDir
  → DownloadToFile c url dest w
    = (match body_err (resp_Body resp) with
       | Some e => Err e
       | None => Ok tt
       end,
       set_fs (<[dest := NFile (body_bytes (resp_Body resp))]> fs1)
         (set_sent (sent w ++ [attachHeaders c
                      {| req_URL := url; req_Header := ∅ |}]) w)).
Proof.
  intros Hne Hu Hdo Hs Hm Hd Hn Hnd. unfold DownloadToFile, NewRequest.
  rewrite decide_False by done. run. rewrite Hu, Hdo.
  rewrite decide_False by (by intros []).
  rewrite (ensureDir_run _ _ fs1) by done. simpl.
  rewrite (createFile_run dest _ fs1);
    [|by apply (MkdirAll_go_idem [] _ (fs w))|done|done|done].
  unfold io_Copy, os.Write; simpl. rewrite lookup_insert_eq.
  rewrite insert_insert_eq.
  by destruct (body_err _).
Qed.

End files.

Section downloads.
Context `{GoLib}.

(** X7. Where the directory of the destination can be ensured, the
    destination is a name the system accepts and is not itself a
    directory, a download answered with 200 and a body that arrives
    whole leaves at the destination a file holding exactly the bytes of
    the body, whatever file was there before, and changes no other entry
    of the file system once the directory is ensured.  A destination
    that is a directory, or whose name the system refuses, makes the
    download fail with the error of [os.Create] and no file written. *)
Theorem DownloadToFile_stores_body (c : APIClient) (url : string)
    (dest : path) (w : World) (resp : Response) (fs1 : gmap path node) :
  url ≠ "" → url_Parse_error url = None
  → @Do (httpClient c) (sent w)
      (attachHeaders c {| req_URL := url; req_Header := ∅ |}) = Ok resp
  → StatusCode resp = 200
  → os.MkdirAll (filepath.Dir dest) (fs w) = Ok fs1
  → dest ≠ []
  → (os.nameError dest = None → fs1 !! dest ≠ Some NDir
     → body_err (resp_Body resp) = None
     → (DownloadToFile c url dest w).1 = Ok tt
       ∧ fs (DownloadToFile c url dest w).2 !! dest
         = Some (NFile (body_bytes (resp_Body resp)))
       ∧ (∀ q, q ≠ dest
            → fs (DownloadToFile c url dest w).2 !! q = fs1 !! q)
       ∧ (∀ q x, q ≠ dest → fs w !! q = Some x
            → fs (DownloadToFile c url dest w).2 !! q = Some x))
    ∧ (os.nameError dest = None → fs1 !! dest = Some NDir
       → (DownloadToFile c url dest w).1 = Err os.ErrIsDir
         ∧ fs (DownloadToFile c url dest w).2 = fs1)
    ∧ (∀ e, os.nameError dest = Some e
         → (DownloadToFile c url dest w).1 = Err e
           ∧ fs (DownloadToFile c url dest w).2 = fs1)
    ∧ (∀ name, name ∈ dest
         → (255 < String.length name)%nat
           ∨ "000"%char ∈ String.list_ascii_of_string name
         → os.nameError dest ≠ None).
Proof.
  intros Hne Hu Hdo Hs Hm Hd.
  assert (Hfail : ∀ e, os.Create dest fs1 = Err e
            → (DownloadToFile c url dest w).1 = Err e
              ∧ fs (DownloadToFile c url dest w).2 = fs1).
  { intros e Hc. unfold DownloadToFile, NewRequest.
    rewrite decide_False by done. run. rewrite Hu, Hdo.
    rewrite decide_False by (by intros []).
    rewrite (ensureDir_run _ _ fs1) by done. simpl.
    unfold createFile.
    rewrite (ensureDir_run _ _ fs1)
      by (by apply (MkdirAll_go_idem [] _ (fs w))).
    simpl. by rewrite Hc. }
  split_and!.
  - intros Hn Hnd Hb.
    rewrite (DownloadToFile_run _ _ _ _ _ _ Hne Hu Hdo Hs Hm Hd Hn Hnd), Hb.
    simpl. split_and!.
    + done.
    + apply lookup_insert_eq.
    + intros q Hq. by rewrite lookup_insert_ne.
    + intros q x Hq Hx. rewrite lookup_insert_ne by done.
      by apply (MkdirAll_go_keeps [] (filepath.Dir dest) (fs w)).
  - intros Hn Hnd. apply Hfail. unfold os.Create. rewrite Hn.
    destruct dest as [|c0 rest]; [done|].
    rewrite (MkdirAll_isDir _ _ _ Hm). by rewrite Hnd.
  - intros e Hn. apply Hfail. unfold os.Create. rewrite Hn.
    by destruct dest.
  - intros name Hin Hbad. by apply (nameError_refuses dest name).
Qed.

(** X8. When the body breaks off in mid-stream, the destination being a
    name the system accepts, the download fails with the read error, and
    the destination file stays behind holding the bytes that did arrive:
    nothing is rolled back. *)
Theorem DownloadToFile_keeps_partial_file (c : APIClient) (url : string)
    (dest : path) (w : World) (resp : Response) (fs1 : gmap path node)
    (e : error) :
  url ≠ "" → url_Parse_error url = None
  → @Do (httpClient c) (sent w)
      (attachHeaders c {| req_URL := url; req_Header := ∅ |}) = Ok resp
  → StatusCode resp = 200
  → os.MkdirAll (filepath.Dir dest) (fs w) = Ok fs1
  → dest ≠ [] → os.nameError dest = None → fs1 !! dest ≠ Some NDir
  → body_err (resp_Body resp) = Some e
  → (DownloadToFile c url dest w).1 = Err e
    ∧ fs (DownloadToFile c url dest w).2 !! dest
      = Some (NFile (body_bytes (resp_Body resp))).
Proof.
  intros Hne Hu Hdo Hs Hm Hd Hn Hnd Hb.
  rewrite (DownloadToFile_run _ _ _ _ _ _ Hne Hu Hdo Hs Hm Hd Hn Hnd), Hb.
  simpl.
  split; [done|apply lookup_insert_eq].
Qed.



End downloads.

Lemma DownloadToFile_stores_body_witness :
  fs (@DownloadToFile (Fixture.catalog Scenario.plain)
        (Fixture.api [("https://cdn/a.mp3", Fixture.respond 200 "AUDIO")])
        "https://cdn/a.mp3" ["tmp"; "a.mp3"] Fixture.world).2
    !! ["tmp"; "a.mp3"]
  = Some (NFile "AUDIO").
Proof.
  refine (proj1 (proj2
    (proj1
       (@DownloadToFile_stores_body (Fixture.catalog Scenario.plain)
          (Fixture.api [("https://cdn/a.mp3", Fixture.respond 200 "AUDIO")])
          "https://cdn/a.mp3" ["tmp"; "a.mp3"] Fixture.world
          (Fixture.respond 200 "AUDIO") (fs Fixture.world)
          _ eq_refl eq_refl eq_refl _ _)
       _ _ eq_refl))).
  - discriminate.
  - by vm_compute.
  - discriminate.
  - by vm_compute.
  - by vm_compute.
Defined.

Lemma DownloadToFile_keeps_partial_file_witness :
  (@DownloadToFile (Fixture.catalog Scenario.plain)
     (Fixture.api [("https://cdn/a.mp3", Scenario.broken 200 "AUD")])
     "https://cdn/a.mp3" ["tmp"; "a.mp3"] Fixture.world).1
  = Err (Foreign "unexpected EOF")
  ∧ fs (@DownloadToFile (Fixture.catalog Scenario.plain)
          (Fixture.api [("https://cdn/a.mp3", Scenario.broken 200 "AUD")])
          "https://cdn/a.mp3" ["tmp"; "a.mp3"] Fixture.world).2
      !! ["tmp"; "a.mp3"]
    = Some (NFile "AUD").
Proof.
  refine (@DownloadToFile_keeps_partial_file (Fixture.catalog Scenario.plain)
    (Fixture.api [("https://cdn/a.mp3", Scenario.broken 200 "AUD")])
    "https://cdn/a.mp3" ["tmp"; "a.mp3"] Fixture.world
    (Scenario.broken 200 "AUD") (fs Fixture.world) (Foreign "unexpected EOF")
    _ eq_refl eq_refl eq_refl _ _ _ _ eq_refl).
  - discriminate.
  - by vm_compute.
  - discriminate.
  - by vm_compute.
  - by vm_compute.
Defined.


(** ** The service *)

Section service_properties.
Context `{GoLib}.

Lemma GetTrack_log_only (c : APIClient) (id : string) (w : World) :
  (GetTrack c id w).2 = set_sent (sent (GetTrack c id w).2) w.
Proof.
  unfold GetTrack. run.
  repeat (case_match; simplify_eq; simpl; try done); by destruct w.
Qed.

Lemma resolveDownloadInfoURL_log_only (c : APIClient) (infoURL id : string)
    (w : World) :
  (resolveDownloadInfoURL c infoURL id w).2
  = set_sent (sent (resolveDownloadInfoURL c infoURL id w).2) w.
Proof.
  unfold resolveDownloadInfoURL. run.
  repeat (case_match; simplify_eq; simpl; try done); by destruct w.
Qed.

Lemma GetDownloadURL_log_only (c : APIClient) (id : string) (w : World) :
  (GetDownloadURL c id w).2 = set_sent (sent (GetDownloadURL c id w).2) w.
Proof.
  unfold GetDownloadURL. run.
  repeat (case_match; simplify_eq; simpl; try done); try (by destruct w);
    by rewrite resolveDownloadInfoURL_log_only at 1.
Qed.

Lemma SearchTracks_log_only (c : APIClient) (query : string)
    (limit offset : Z) (w : World) :
  (SearchTracks c query limit offset w).2
  = set_sent (sent (SearchTracks c query limit offset w).2) w.
Proof.
  unfold SearchTracks. run.
  repeat (case_match; simplify_eq; simpl; try done); by destruct w.
Qed.

(** X11. [StreamURL] and [Search] have no effect on the file system:
    over the API client they leave the files and the random source as
    they were and only add to the log of requests. *)
Theorem StreamURL_leaves_files_alone (c : APIClient) (w : World) :
  (∀ id,
     (StreamURL {| client := APIClient_Client c |} id w).2
     = set_sent (sent (StreamURL {| client := APIClient_Client c |} id w).2) w)
  ∧ (∀ id, fs (StreamURL {| client := APIClient_Client c |} id w).2 = fs w)
  ∧ (∀ query limit offset,
       fs (Search {| client := APIClient_Client c |} query limit offset w).2
       = fs w).
Proof.
  assert (Hs : ∀ id,
    (StreamURL {| client := APIClient_Client c |} id w).2
    = set_sent (sent (StreamURL {| client := APIClient_Client c |} id w).2) w).
  { intros id. unfold StreamURL, wrap. run.
    pose proof (GetTrack_log_only c id w) as E1.
    destruct (GetTrack c id w) as [[meta|?] w1]; simpl in *; [|done].
    pose proof (GetDownloadURL_log_only c id w1) as E2.
    destruct (GetDownloadURL c id w1) as [[url|?] w2]; simpl in *;
      rewrite E2, E1; done. }
  split_and!.
  - exact Hs.
  - intros id. by rewrite Hs.
  - intros query limit offset. unfold Search; simpl.
    by rewrite SearchTracks_log_only.
Qed.

(** X12. The services stop at the first step that fails and name it: an
    error of the metadata lookup comes back wrapped as "get track meta"
    with the world as that lookup left it, so that nothing further was
    requested or created; every error of [StreamURL] is wrapped as "get
    track meta" or "get download url", every error of [DownloadTrack] as
    one of these, "temp dir" or "download". *)
Theorem service_errors_name_the_step (s : Service) (id : string) (w : World) :
  (∀ cause w1, Client.GetTrack (client s) id w = (Err cause, w1)
     → StreamURL s id w = (Err (Wrapf "get track meta" cause), w1)
       ∧ DownloadTrack s id w = (Err (Wrapf "get track meta" cause), w1))
  ∧ (∀ meta w1 cause w2, Client.GetTrack (client s) id w = (Ok meta, w1)
       → Client.GetDownloadURL (client s) id w1 = (Err cause, w2)
       → StreamURL s id w = (Err (Wrapf "get download url" cause), w2)
         ∧ DownloadTrack s id w = (Err (Wrapf "get download url" cause), w2))
  ∧ (∀ e, (StreamURL s id w).1 = Err e
       → ∃ cause, e = Wrapf "get track meta" cause
                  ∨ e = Wrapf "get download url" cause)
  ∧ (∀ e, (DownloadTrack s id w).1 = Err e
       → ∃ cause, e = Wrapf "get track meta" cause
                  ∨ e = Wrapf "get download url" cause
                  ∨ e = Wrapf "temp dir" cause
                  ∨ e = Wrapf "download" cause).
Proof.
  split_and!.
  - intros cause w1 E. unfold StreamURL, DownloadTrack, wrap. run.
    by rewrite E.
  - intros meta w1 cause w2 E1 E2. unfold StreamURL, DownloadTrack, wrap. run.
    by rewrite E1, E2.
  - intros e. unfold StreamURL, wrap. run.
    destruct (Client.GetTrack _ _ _) as [[meta|?] w1]; simpl;
      [|intros [= <-]; eauto].
    destruct (Client.GetDownloadURL _ _ _) as [[url|?] w2]; simpl; [done|].
    intros [= <-]; eauto.
  - intros e. unfold DownloadTrack, wrap. run.
    destruct (Client.GetTrack _ _ _) as [[meta|?] w1]; simpl;
      [|intros [= <-]; eauto].
    destruct (Client.GetDownloadURL _ _ _) as [[url|?] w2]; simpl;
      [|intros [= <-]; eauto].
    destruct (MkdirTemp _ _) as [[tmpDir|?] w3]; simpl;
      [|intros [= <-]; eauto 6].
    destruct (Client.DownloadToFile _ _ _ _) as [[?|?] w4]; simpl; [done|].
    intros [= <-]; eauto 6.
Qed.

End service_properties.

(** ** The life of the temporary directory *)

Lemma grows_refl (dir : path) (m : gmap path node) : grows_towards dir m m.
Proof. intros q. by left. Qed.

Lemma grows_trans (dir : path) (m1 m2 m3 : gmap path node) :
  grows_towards dir m1 m2 → grows_towards dir m2 m3 → grows_towards dir m1 m3.
Proof.
  intros G1 G2 q.
  destruct (G1 q) as [E1|(N1 & D1 & P1)], (G2 q) as [E2|(N2 & D2 & P2)].
  - left. by rewrite E2.
  - right. by rewrite <- E1.
  - right. by rewrite E2.
  - by rewrite N2 in D1.
Qed.

Lemma MkdirAll_go_grows (above : path) (below : list string)
    (m m' : gmap path node) :
  os.MkdirAll_go above below m = Ok m' → grows_towards (above ++ below) m m'.
Proof.
  revert above m. induction below as [|c rest IH]; intros above m; simpl.
  - intros [= <-]. apply grows_refl.
  - rewrite (cons_middle c above rest), app_assoc.
    destruct (m !! (above ++ [c])) as [[|content]|] eqn:Hl; [|done|].
    + apply IH.
    + intros Hgo. eapply grows_trans; [|by apply IH].
      intros q. destruct (decide (q = above ++ [c])) as [->|Hne].
      * right. rewrite lookup_insert_eq. split_and!; [done|done| |].
        -- by apply prefix_app_r.
        -- by destruct above.
      * left. by rewrite lookup_insert_ne.
Qed.

Lemma Mkdir_parent (p : path) (m m' : gmap path node) :
  os.Mkdir p m = Ok m' → os.isDir m (filepath.Dir p) = true.
Proof.
  unfold os.Mkdir. destruct p as [|x l]; [done|].
  repeat case_match; done.
Qed.

Lemma MkdirTemp_go_parent (tries : nat) (rand : nat → N) (dir : path)
    (prefix : string) (d d' : nat) (m m' : gmap path node) (tmpDir : path) :
  os.MkdirTemp_go tries rand dir prefix d m = (Ok tmpDir, d', m')
  → os.isDir m (filepath.Dir tmpDir) = true ∧ tmpDir ≠ [].
Proof.
  revert d. induction tries as [|tries IH]; intros d; simpl;
    destruct (os.Mkdir _ m) as [m1|e] eqn:Hm.
  - intros [= <- <- <-]. split; [by eapply Mkdir_parent|by destruct dir].
  - by case_decide.
  - intros [= <- <- <-]. split; [by eapply Mkdir_parent|by destruct dir].
  - case_decide; [apply IH|done].
Qed.


Lemma ensureDir_grows (dir : path) (w : World) :
  grows_towards dir (fs w) (fs (ensureDir dir w).2).
Proof.
  unfold ensureDir. rewrite decide_False by apply String_absolute.
  destruct (os.MkdirAll dir (fs w)) as [m|e] eqn:Hm; simpl.
  - by apply (MkdirAll_go_grows [] dir).
  - apply grows_refl.
Qed.

(** What [DownloadToFile] may change in the file system, however it
    ends: the destination, and directories added on the way down to the
    directory of the destination. *)
Lemma DownloadToFile_grows `{GoLib} (c : APIClient) (url : string)
    (dest : path) (w : World) (q : path) :
  q ≠ dest
  → fs (DownloadToFile c url dest w).2 !! q = fs w !! q
    ∨ (fs w !! q = None ∧ fs (DownloadToFile c url dest w).2 !! q = Some NDir
       ∧ q `prefix_of` filepath.Dir dest ∧ q ≠ []).
Proof.
  intros Hq. unfold DownloadToFile. case_decide; [by left|]. run.
  destruct (NewRequest _) as [req|?]; [|by left].
  destruct (Do _ _) as [resp|?]; [|by left].
  case_decide; [by left|].
  match goal with
  | |- context [ensureDir ?d ?w0] =>
      pose proof (ensureDir_grows d w0) as G1;
      destruct (ensureDir d w0) as [[?|?] w1]; simpl in G1 |- *
  end; [|apply G1].
  unfold createFile.
  pose proof (ensureDir_grows (filepath.Dir dest) w1) as G2.
  destruct (ensureDir _ w1) as [[?|?] w2]; simpl in G2 |- *;
    [|apply (grows_trans _ _ _ _ G1 G2)].
  pose proof (grows_trans _ _ _ _ G1 G2 q) as G.
  destruct (os.Create dest (fs w2)) as [m|?] eqn:Hc; simpl; [|apply G].
  assert (m = <[dest := NFile ""]> (fs w2)) as ->.
  { unfold os.Create in Hc. repeat case_match; by simplify_eq. }
  unfold io_Copy, os.Write. simpl. rewrite lookup_insert_eq.
  destruct (body_err _); simpl; by rewrite !lookup_insert_ne.
Qed.


Lemma filename_not_special (meta : Track) :
  filename meta ≠ "" ∧ filename meta ≠ "." ∧ filename meta ≠ "..".
Proof.
  pose proof (filename_long (ArtistsString meta) (Title meta)) as Hlen.
  fold (filename meta) in Hlen.
  split_and!; intros E; rewrite E in Hlen; simpl in Hlen; lia.
Qed.

Section lifecycle.
Context `{GoLib}.

Lemma MkdirTemp_Ok (prefix : string) (w w3 : World) (tmpDir : path) :
  MkdirTemp prefix w = (Ok tmpDir, w3)
  → fs w !! tmpDir = None ∧ fs w3 = <[tmpDir := NDir]> (fs w)
    ∧ sent w3 = sent w
    ∧ os.isDir (fs w) (filepath.Dir tmpDir) = true ∧ tmpDir ≠ [].
Proof.
  unfold MkdirTemp.
  destruct (os.MkdirTemp_go _ _ _ _ _ _) as [[r d] m] eqn:Hgo.
  intros [= -> <-]. simpl.
  destruct (MkdirTemp_go_fresh _ _ _ _ _ _ _ _ _ Hgo) as (? & ? & _).
  destruct (MkdirTemp_go_parent _ _ _ _ _ _ _ _ _ Hgo) as (? & ?).
  done.
Qed.





End lifecycle.


Lemma Scenario_plain_name (w : World) (audio : Response) (meta : Track)
    (w1 : World) :
  @GetTrack (Fixture.catalog Scenario.plain) (Fixture.server "42" audio) "42" w
  = (Ok meta, w1)
  → plain (filename meta).
Proof.
  intros E. vm_compute in E. injection E as <- _.
  unfold plain. vm_compute.
  intros Hin. repeat (apply elem_of_cons in Hin as [Hin|Hin]; [discriminate Hin|]).
  by apply elem_of_nil in Hin.
Qed.


Section callbacks.
Context `{GoLib}.



(** X15. What the user is told after pressing a download button: data
    that is empty or does not begin with "download:" is ignored
    altogether; otherwise the press is acknowledged first, and then
    follows exactly one of an alert that the download failed, the audio
    of the downloaded file with the duration, performer and title of the
    track, or that audio and an alert that sending it failed. *)
Theorem handleCallback_replies (b : telegram.Bot)
    (cb : telegram.CallbackQuery) (ch : telegram.Chat) :
  (telegram.cb_Data cb = ""
   ∨ telegram.HasPrefix (telegram.cb_Data cb) telegram.callbackPrefix = false
   → telegram.handleCallback b cb ch = ch)
  ∧ (telegram.cb_Data cb ≠ ""
     → telegram.HasPrefix (telegram.cb_Data cb) telegram.callbackPrefix = true
     → ∃ rest,
         telegram.told (telegram.handleCallback b cb ch)
         = telegram.told ch
           ++ telegram.CallbackConfig (telegram.cb_ID cb)
                "Готовим ваш трек…" false :: rest
         ∧ (rest = [telegram.CallbackConfig (telegram.cb_ID cb)
                      "Не удалось скачать трек :(" true]
            ∨ ∃ meta file,
                (DownloadTrack (telegram.musicService b)
                   (telegram.TrimPrefix (telegram.cb_Data cb)
                      telegram.callbackPrefix) (telegram.world ch)).1
                = Ok (meta, file)
                ∧ (rest = [telegram.AudioConfig
                             (default (telegram.cb_From cb) (telegram.cb_Chat cb))
                             file (DurationSeconds meta) (ArtistsString meta)
                             (Title meta)
                             (Title meta +:+ " — " +:+ ArtistsString meta)]
                   ∨ rest = [telegram.AudioConfig
                               (default (telegram.cb_From cb) (telegram.cb_Chat cb))
                               file (DurationSeconds meta) (ArtistsString meta)
                               (Title meta)
                               (Title meta +:+ " — " +:+ ArtistsString meta);
                             telegram.CallbackConfig (telegram.cb_ID cb)
                               "Не удалось отправить аудио :(" true]))).
Proof.
  split.
  - intros Hd. unfold telegram.handleCallback. by rewrite decide_True.
  - intros Hne Hp. unfold telegram.handleCallback.
    rewrite decide_False by (intros [?|E]; [done|by rewrite Hp in E]).
    simpl.
    destruct (DownloadTrack _ _ _) as [[[meta file]|e] w'] eqn:E; simpl.
    + assert (Hchat : match telegram.cb_Chat cb with
                      | Some id => id
                      | None => telegram.cb_From cb
                      end = default (telegram.cb_From cb) (telegram.cb_Chat cb))
        by (by destruct (telegram.cb_Chat cb)).
      rewrite Hchat.
      destruct (telegram.Call _ _); simpl; eexists;
        (split; [by rewrite <- ?app_assoc|]); right; exists meta, file;
        (split; [done|]); [by left|by right].
    + eexists. split; [by rewrite <- app_assoc|]. by left.
Qed.

(** X16. Two downloads made one after the other get directories of their
    own: when both succeed, for tracks whose file names hold no path
    separator, the two returned paths lie in different directories, and
    the file of the first download is still there, unchanged, after the
    second. *)
Theorem consecutive_downloads_are_apart (c : APIClient) (id1 id2 : string)
    (w w1 w2 : World) (m1 m2 : Track) (d1 d2 : path) :
  DownloadTrack {| client := APIClient_Client c |} id1 w = (Ok (m1, d1), w1)
  → DownloadTrack {| client := APIClient_Client c |} id2 w1 = (Ok (m2, d2), w2)
  → plain (filename m1) → plain (filename m2)
  → filepath.Dir d1 ≠ filepath.Dir d2
    ∧ d1 ≠ d2
    ∧ (∃ bytes, fs w1 !! d1 = Some (NFile bytes)
                ∧ fs w2 !! d1 = Some (NFile bytes))
    ∧ (∃ bytes, fs w2 !! d2 = Some (NFile bytes)).
Proof.
  assert (Hinv : ∀ id w w' meta dest,
    DownloadTrack {| client := APIClient_Client c |} id w = (Ok (meta, dest), w')
    → plain (filename meta)
    → ∃ tmpDir bytes,
        fs w !! tmpDir = None ∧ dest = tmpDir ++ [filename meta]
        ∧ fs w' !! tmpDir = Some NDir ∧ fs w' !! dest = Some (NFile bytes)
        ∧ ∀ q x, q ≠ dest → fs w !! q = Some x → fs w' !! q = Some x).
  { clear. intros id w w' meta dest Hrun Hplain.
    unfold DownloadTrack, wrap in Hrun. run.
    pose proof (GetTrack_fs c id w) as F1.
    destruct (GetTrack c id w) as [[meta'|?] wa]; [|done].
    pose proof (GetDownloadURL_fs c id wa) as F2.
    destruct (GetDownloadURL c id wa) as [[url|?] wb]; [|done].
    simpl in F1, F2.
    destruct (MkdirTemp _ wb) as [[tmpDir|?] wc] eqn:E3; [|done].
    destruct (DownloadToFile _ _ _ _) as [[u|?] wd] eqn:E4; [|done].
    injection Hrun as -> <- <-.
    apply MkdirTemp_Ok in E3 as (Hfresh & Hfs & _ & _ & Hroot).
    destruct (filename_not_special meta) as (F0 & F1' & F2').
    fold (filename meta) in E4 |- *.
    rewrite Join_plain in E4 |- * by done.
    rewrite F2, F1 in Hfresh, Hfs.
    assert (Hne : tmpDir ≠ tmpDir ++ [filename meta]).
    { intros E. apply (f_equal length) in E.
      rewrite length_app in E. simpl in E. lia. }
    pose proof (λ q, DownloadToFile_grows c url (tmpDir ++ [filename meta]) wc q)
      as Hg.
    rewrite E4 in Hg. simpl in Hg.
    apply DownloadToFile_Ok in E4 as (bytes & Hfile & _).
    exists tmpDir, bytes. split_and!; try done.
    - destruct (Hg tmpDir Hne) as [E|(_ & E & _)]; [|done].
      by rewrite E, Hfs, lookup_insert_eq.
    - intros q x Hq Hx.
      assert (q ≠ tmpDir) by (intros ->; by rewrite Hfresh in Hx).
      destruct (Hg q Hq) as [E|(N & _)].
      + by rewrite E, Hfs, lookup_insert_ne.
      + rewrite Hfs, lookup_insert_ne, Hx in N; done. }
  intros R1 R2 P1 P2.
  destruct (Hinv _ _ _ _ _ R1 P1) as (t1 & b1 & _ & -> & Ht1 & Hf1 & _).
  destruct (Hinv _ _ _ _ _ R2 P2) as (t2 & b2 & Hfresh2 & -> & _ & Hf2 & Hkeep).
  rewrite !Dir_snoc.
  assert (t1 ≠ t2) as Hne by (intros ->; by rewrite Ht1 in Hfresh2).
  assert (t1 ++ [filename m1] ≠ t2 ++ [filename m2]) as Hd.
  { intros E. apply Hne. by apply app_inj_tail in E as [? _]. }
  split_and!; [done|done|eauto|eauto].
Qed.

End callbacks.


Lemma consecutive_downloads_are_apart_witness :
  filepath.Dir ["tmp"; "ym-bot-0"; "Band, Guest - Song.mp3"]
  ≠ filepath.Dir ["tmp"; "ym-bot-1"; "Band, Guest - Song.mp3"].
Proof.
  refine (proj1
    (@consecutive_downloads_are_apart (Fixture.catalog Scenario.plain)
       (Fixture.server "42" (Fixture.respond 200 "AUDIO")) "42" "42"
       Fixture.world
       (@DownloadTrack (Fixture.catalog Scenario.plain)
          (Fixture.service Scenario.plain "42" (Fixture.respond 200 "AUDIO"))
          "42" Fixture.world).2
       (@DownloadTrack (Fixture.catalog Scenario.plain)
          (Fixture.service Scenario.plain "42" (Fixture.respond 200 "AUDIO"))
          "42"
          (@DownloadTrack (Fixture.catalog Scenario.plain)
             (Fixture.service Scenario.plain "42" (Fixture.respond 200 "AUDIO"))
             "42" Fixture.world).2).2
       (mapTrack Scenario.plain) (mapTrack Scenario.plain)
       ["tmp"; "ym-bot-0"; "Band, Guest - Song.mp3"]
       ["tmp"; "ym-bot-1"; "Band, Guest - Song.mp3"] _ _ _ _)).
  - vm_compute. reflexivity.
  - vm_compute. reflexivity.
  - apply (Scenario_plain_name Fixture.world (Fixture.respond 200 "AUDIO")
             (mapTrack Scenario.plain)
             (@GetTrack (Fixture.catalog Scenario.plain)
                (Fixture.server "42" (Fixture.respond 200 "AUDIO")) "42"
                Fixture.world).2).
    vm_compute. reflexivity.
  - apply (Scenario_plain_name Fixture.world (Fixture.respond 200 "AUDIO")
             (mapTrack Scenario.plain)
             (@GetTrack (Fixture.catalog Scenario.plain)
                (Fixture.server "42" (Fixture.respond 200 "AUDIO")) "42"
                Fixture.world).2).
    vm_compute. reflexivity.
Defined.

(** ** Configuration and paging *)

(** X17. [config.Load] fails exactly when TELEGRAM_TOKEN is unset or
    blank, with the error "TELEGRAM_TOKEN is not set"; the configuration
    it returns, also beside the error, holds the trimmed values and a log
    level that is never empty: "info" when LOG_LEVEL is unset or
    blank. *)
Theorem Load_requires_telegram_token `{GoLib} `{Environ} :
  ((config.Load).2 = None ↔ TrimSpace (Getenv "TELEGRAM_TOKEN") ≠ "")
  ∧ ((config.Load).2 = None
     ∨ (config.Load).2 = Some (Errorf "TELEGRAM_TOKEN is not set"))
  ∧ ((∀ ch, ch ∈ String.list_ascii_of_string (Getenv "TELEGRAM_TOKEN")
            → asciiSpace ch = true)
     → (config.Load).2 = Some (Errorf "TELEGRAM_TOKEN is not set"))
  ∧ config.TelegramToken (config.Load).1 = TrimSpace (Getenv "TELEGRAM_TOKEN")
  ∧ config.YandexToken (config.Load).1 = TrimSpace (Getenv "YANDEX_TOKEN")
  ∧ config.LogLevel (config.Load).1 ≠ ""
  ∧ (TrimSpace (Getenv "LOG_LEVEL") = ""
     → config.LogLevel (config.Load).1 = "info")
  ∧ (TrimSpace (Getenv "LOG_LEVEL") ≠ ""
     → config.LogLevel (config.Load).1 = TrimSpace (Getenv "LOG_LEVEL")).
Proof.
  unfold config.Load; simpl.
  destruct (decide (TrimSpace (Getenv "LOG_LEVEL") = "")) as [El|El];
    destruct (decide (TrimSpace (Getenv "TELEGRAM_TOKEN") = "")) as [Et|Et];
    simpl; rewrite ?decide_True by done; rewrite ?decide_False by done; simpl;
    (split_and!;
     [split; intros; done
     |auto
     |intros Hsp; apply TrimSpace_spaces in Hsp; done
     |done|done|done|done|done]).
Qed.

Section paging_granularity.
Context `{GoLib}.

(** X18. Paging is by whole pages: two offsets that fall into the same
    page of [limit] entries give the same request and the same result,
    so that an offset inside a page, [p * limit + k] with [k] below
    [limit], is served as the page's first [limit] entries. *)
Theorem SearchTracks_whole_pages (c : APIClient) (query : string)
    (limit o1 o2 : Z) (w : World) :
  0 < limit → 0 ≤ o1 → 0 ≤ o2 → o1 `div` limit = o2 `div` limit
  → SearchTracks c query limit o1 w = SearchTracks c query limit o2 w
    ∧ (∀ p k, 0 ≤ p → 0 ≤ k < limit
         → SearchTracks c query limit (p * limit + k) w
           = SearchTracks c query limit (p * limit) w).
Proof.
  intros Hl H1 H2 Hpage. split.
  - rewrite !SearchTracks_run by done. by rewrite Hpage.
  - intros p k Hp Hk. rewrite !SearchTracks_run by nia.
    replace ((p * limit + k) `div` limit) with p
      by (apply Z.div_unique with k; lia).
    by rewrite Z.div_mul by lia.
Qed.

Lemma SearchTracks_length (c : APIClient) (query : string) (limit offset : Z)
    (w w' : World) (tracks : list Track) :
  0 < limit → 0 ≤ offset
  → SearchTracks c query limit offset w = (Ok tracks, w')
  → (length tracks ≤ Z.to_nat limit)%nat.
Proof.
  intros Hl Ho. rewrite SearchTracks_run by done.
  case_decide; [done|]. destruct (url_Parse_error _); [done|]. simpl.
  destruct (Do _ _) as [resp|?]; [|done]. case_decide; [done|].
  destruct (json_Decode_search _) as [payload|?]; [|done].
  intros [= <- _]. rewrite length_fmap, length_take. lia.
Qed.

End paging_granularity.

Lemma SearchTracks_whole_pages_witness :
  @SearchTracks (Fixture.catalog Scenario.plain) Fixture.searching
    "abc" 10 27 Fixture.world
  = @SearchTracks (Fixture.catalog Scenario.plain) Fixture.searching
      "abc" 10 20 Fixture.world.
Proof.
  refine (proj1
    (@SearchTracks_whole_pages (Fixture.catalog Scenario.plain)
       Fixture.searching "abc" 10 27 20 Fixture.world _ _ _ eq_refl)); lia.
Defined.

(** ** Inline queries *)

Lemma int_wrap_id (z : Z) : - 2 ^ 63 ≤ z < 2 ^ 63 → int_wrap z = z.
Proof.
  intros Hz. unfold int_wrap. rewrite Z.mod_small; lia.
Qed.

Section inline.
Context `{GoLib} `{Strconv}.

Lemma handleInlineQuery_loop_results (s : Service) (tracks : list Track)
    (results : list telegram.InlineQueryResultAudio) (w : World) :
  ∃ l, (telegram.handleInlineQuery_loop s tracks results w).1 = results ++ l
       ∧ (length l ≤ length tracks)%nat
       ∧ Forall (λ a, telegram.audio_URL a ≠ "") l.
Proof.
  revert results w. induction tracks as [|track rest IH]; intros results w;
    simpl.
  - exists []. by rewrite app_nil_r.
  - destruct (StreamURL s (ID track) w) as [[[meta url]|e] w'].
    + case_decide as Hu.
      * destruct (IH results w') as (l & E & L & F). exists l.
        split_and!; [done|lia|done].
      * destruct (IH (results ++ [ {|
            telegram.audio_ID := ID meta; telegram.audio_URL := url;
            telegram.audio_Title := Title meta;
            telegram.audio_Performer := ArtistsString meta;
            telegram.audio_Caption :=
              Title meta +:+ " — " +:+ ArtistsString meta |} ]) w')
          as (l & E & L & F).
        eexists (_ :: l). split_and!.
        -- rewrite E, <- app_assoc. done.
        -- simpl. lia.
        -- by constructor.
    + destruct (IH results w') as (l & E & L & F). exists l.
      split_and!; [done|lia|done].
Qed.


Lemma handleInlineQuery_loop_sends (c : APIClient) (tracks : list Track)
    (results : list telegram.InlineQueryResultAudio) (w : World) :
  sends c (3 * length tracks) w
    (telegram.handleInlineQuery_loop {| client := APIClient_Client c |}
       tracks results w).2
  ∧ fs (telegram.handleInlineQuery_loop {| client := APIClient_Client c |}
          tracks results w).2 = fs w.
Proof.
  revert results w. induction tracks as [|track rest IH]; intros results w;
    simpl.
  - split; [apply sends_refl|done].
  - pose proof (StreamURL_sends c (ID track) w) as S1.
    assert (F1 : fs (StreamURL {| client := APIClient_Client c |}
                       (ID track) w).2 = fs w).
    { unfold StreamURL, wrap. run.
      pose proof (GetTrack_fs c (ID track) w) as E1.
      destruct (GetTrack c (ID track) w) as [[meta|?] w1]; simpl in *; [|done].
      pose proof (GetDownloadURL_fs c (ID track) w1) as E2.
      destruct (GetDownloadURL c (ID track) w1) as [[url|?] w2]; simpl in *;
        by rewrite E2. }
    replace (length rest + S (length rest + S (length rest + 0)))%nat
      with (3 + 3 * length rest - 1)%nat by lia.
    destruct (StreamURL _ _ w) as [[[meta url]|e] w']; simpl in S1, F1.
    + case_decide.
      * destruct (IH results w') as [S2 F2]. split; [|by rewrite F2].
        replace (S (3 + 3 * length rest - 1))%nat
          with (3 + 3 * length rest)%nat by lia.
        by eapply sends_trans.
      * match goal with
        | |- context [telegram.handleInlineQuery_loop _ rest ?r w'] =>
            destruct (IH r w') as [S2 F2]
        end.
        split; [|by rewrite F2].
        replace (S (3 + 3 * length rest - 1))%nat
          with (3 + 3 * length rest)%nat by lia.
        by eapply sends_trans.
    + destruct (IH results w') as [S2 F2]. split; [|by rewrite F2].
      replace (S (3 + 3 * length rest - 1))%nat
        with (3 + 3 * length rest)%nat by lia.
      by eapply sends_trans.
Qed.

Lemma handleInlineQuery_told (tg : telegram.BotAPI) (c : APIClient)
    (q : telegram.InlineQuery) (ch : telegram.Chat) :
  (TrimSpace (telegram.iq_Query q) = ""
   → telegram.handleInlineQuery
       {| telegram.api := tg;
          telegram.musicService := {| client := APIClient_Client c |} |} q ch
     = ch)
  ∧ (telegram.told
       (telegram.handleInlineQuery
          {| telegram.api := tg;
             telegram.musicService := {| client := APIClient_Client c |} |} q ch)
     = telegram.told ch
     ∨ ∃ results next,
         telegram.told
           (telegram.handleInlineQuery
              {| telegram.api := tg;
                 telegram.musicService := {| client := APIClient_Client c |} |}
              q ch)
         = telegram.told ch
           ++ [telegram.InlineConfig (telegram.iq_ID q) results next]
         ∧ (length results ≤ 10)%nat
         ∧ Forall (λ a, telegram.audio_URL a ≠ "") results
         ∧ (telegram.iq_Offset q = ""
            → next = pretty (Z.of_nat (length results)))
         ∧ (∀ e, Atoi (telegram.iq_Offset q) = Err e
              → next = pretty (Z.of_nat (length results)))
         ∧ (∀ v, Atoi (telegram.iq_Offset q) = Ok v → v < 0
              → next = pretty (Z.of_nat (length results)))
         ∧ (∀ v, telegram.iq_Offset q ≠ ""
              → Atoi (telegram.iq_Offset q) = Ok v → 0 ≤ v → v + 10 < 2 ^ 63
              → next = pretty (v + Z.of_nat (length results)))).
Proof.
  split.
  - intros Hq. unfold telegram.handleInlineQuery. by rewrite decide_True.
  - unfold telegram.handleInlineQuery. case_decide as Hq; [by left|].
    set (offset := if decide (telegram.iq_Offset q ≠ "") then _ else _).
    assert (Hoff : 0 ≤ offset).
    { unfold offset. repeat case_match; lia. }
    unfold Search, telegram.searchLimit; simpl.
    destruct (SearchTracks c _ 10 offset _) as [[tracks|e] w] eqn:Es;
      [|by left].
    apply SearchTracks_length in Es; [|lia|done].
    destruct (handleInlineQuery_loop_results
                {| client := APIClient_Client c |} tracks [] w)
      as (l & E & L & F).
    destruct (telegram.handleInlineQuery_loop _ tracks [] w)
      as [results w'] eqn:El.
    simpl in E. subst results. right. exists l. eexists.
    split; [reflexivity|].
    assert (Hl : (length l ≤ 10)%nat) by lia.
    split_and!; [done|done| | | |].
    + intros Ho. unfold offset. rewrite decide_False by (by intros []).
      rewrite int_wrap_id; [done|lia].
    + intros e' He. unfold offset. rewrite He.
      case_decide; (rewrite int_wrap_id; [done|lia]).
    + intros v Hv Hneg. unfold offset. rewrite Hv.
      case_decide; [rewrite decide_False by lia|];
        (rewrite int_wrap_id; [done|lia]).
    + intros v Ho Hv Hpos Hmax. unfold offset.
      rewrite decide_True by done. rewrite Hv, decide_True by lia.
      rewrite int_wrap_id; [done|lia].
Qed.



(** X20. What an inline query costs: the handler leaves the file system
    as it is and sends at most 31 requests, one search and up to three
    for each of the at most ten tracks found. *)
Theorem handleInlineQuery_cost (tg : telegram.BotAPI) (c : APIClient)
    (q : telegram.InlineQuery) (ch : telegram.Chat) :
  fs (telegram.world
        (telegram.handleInlineQuery
           {| telegram.api := tg;
              telegram.musicService := {| client := APIClient_Client c |} |}
           q ch))
  = fs (telegram.world ch)
  ∧ sent (telegram.world ch)
      `prefix_of`
      sent (telegram.world
              (telegram.handleInlineQuery
                 {| telegram.api := tg;
                    telegram.musicService := {| client := APIClient_Client c |} |}
                 q ch))
  ∧ (length (sent (telegram.world
                     (telegram.handleInlineQuery
                        {| telegram.api := tg;
                           telegram.musicService :=
                             {| client := APIClient_Client c |} |} q ch)))
     ≤ length (sent (telegram.world ch)) + 31)%nat.
Proof.
  assert (Hs : sends c 31 (telegram.world ch)
    (telegram.world
       (telegram.handleInlineQuery
          {| telegram.api := tg;
             telegram.musicService := {| client := APIClient_Client c |} |}
          q ch))
    ∧ fs (telegram.world
            (telegram.handleInlineQuery
               {| telegram.api := tg;
                  telegram.musicService := {| client := APIClient_Client c |} |}
               q ch))
      = fs (telegram.world ch)).
  { unfold telegram.handleInlineQuery.
    case_decide as Hq; [split; [apply sends_refl|done]|].
    set (offset := if decide (telegram.iq_Offset q ≠ "") then _ else _).
    assert (Hoff : 0 ≤ offset).
    { unfold offset. repeat case_match; lia. }
    unfold Search, telegram.searchLimit; simpl.
    pose proof (SearchTracks_sends c (TrimSpace (telegram.iq_Query q)) 10
                  offset (telegram.world ch)) as S1.
    pose proof (SearchTracks_log_only c (TrimSpace (telegram.iq_Query q)) 10
                  offset (telegram.world ch)) as F1.
    destruct (SearchTracks c _ 10 offset _) as [[tracks|e] w] eqn:Es;
      simpl in S1, F1.
    - apply SearchTracks_length in Es; [|lia|done].
      destruct (handleInlineQuery_loop_sends c tracks [] w) as [S2 F2].
      destruct (telegram.handleInlineQuery_loop _ tracks [] w)
        as [results w'] eqn:El.
      simpl in S2, F2 |- *. split.
      + apply (sends_trans c 1 30 _ w w'); [done|].
        destruct S2 as (l & E & L & F). exists l.
        split_and!; [done|lia|done].
      + rewrite F2, F1. done.
    - simpl. split.
      + destruct S1 as (l & E & L & F). exists l.
        split_and!; [done|lia|done].
      + by rewrite F1. }
  destruct Hs as [(l & E & L & _) Hfs]. split_and!.
  - done.
  - rewrite E. by exists l.
  - rewrite E, length_app. lia.
Qed.

(** X21. Paging by results against paging by pages: the answer to a
    first inline query names as next offset the number of its results,
    and when fewer than ten tracks of the page could be resolved, a
    search at that offset is the search of the first page again. *)
Theorem first_page_is_served_again (tg : telegram.BotAPI) (c : APIClient)
    (q : telegram.InlineQuery) (ch : telegram.Chat)
    (results : list telegram.InlineQueryResultAudio) (next : string) :
  telegram.iq_Offset q = ""
  → telegram.told
      (telegram.handleInlineQuery
         {| telegram.api := tg;
            telegram.musicService := {| client := APIClient_Client c |} |} q ch)
    = telegram.told ch
      ++ [telegram.InlineConfig (telegram.iq_ID q) results next]
  → next = pretty (Z.of_nat (length results))
    ∧ ((length results < 10)%nat
       → ∀ query w,
           Search {| client := APIClient_Client c |} query
             telegram.searchLimit (Z.of_nat (length results)) w
           = Search {| client := APIClient_Client c |} query
               telegram.searchLimit 0 w).
Proof.
  intros Ho Htold. split.
  - destruct (proj2 (handleInlineQuery_told tg c q ch))
      as [E|(results' & next' & E & _ & _ & Hn & _)].
    + rewrite E in Htold. apply (f_equal length) in Htold.
      rewrite length_app in Htold. simpl in Htold. lia.
    + rewrite E in Htold. apply app_inv_head in Htold.
      injection Htold as <- <-. by apply Hn.
  - intros Hlen query w. unfold Search, telegram.searchLimit; simpl.
    rewrite !SearchTracks_run by lia.
    rewrite Z.div_small by lia. done.
Qed.

End inline.


Lemma first_page_is_served_again_witness :
  "1" = pretty (Z.of_nat (length [Scenario.found])).
Proof.
  refine (proj1
    (@first_page_is_served_again (Fixture.catalog Scenario.plain) Scenario.atoi
       Scenario.accepting Scenario.inline_server (Scenario.ask "abc" "")
       Scenario.chat [Scenario.found] "1" eq_refl _)).
  vm_compute. reflexivity.
Defined.

(** ** The cover address and the album title of a track *)

Lemma prefix_other_head (c : ascii) (s : string) :
  "%"%char ≠ c → String.prefix "%%" (String c s) = false.
Proof.
  intros Hc.
  change (String.prefix "%%" (String c s))
    with (if Ascii.ascii_dec "%" c then String.prefix "%" s else false).
  by destruct (Ascii.ascii_dec "%" c).
Qed.

Lemma ReplaceAll_go_unsized (fuel : nat) (s new : string) :
  unsized s → strings.ReplaceAll_go fuel s "%%" new = s.
Proof.
  revert s. induction fuel as [|fuel IH]; intros s Hs; [done|].
  destruct s as [|c s']; [done|].
  unfold unsized in Hs. simpl in Hs.
  apply not_elem_of_cons in Hs as [Hc Hs].
  change (strings.ReplaceAll_go (S fuel) (String c s') "%%" new)
    with (if String.prefix "%%" (String c s')
          then new +:+ strings.ReplaceAll_go fuel
                 (String.substring 2 (String.length (String c s') - 2)
                    (String c s')) "%%" new
          else String c (strings.ReplaceAll_go fuel s' "%%" new)).
  assert (E : String.prefix "%%" (String c s') = false).
  { by apply prefix_other_head. }
  rewrite E. f_equal. by apply IH.
Qed.

Lemma append_empty_r (s : string) : s +:+ "" = s.
Proof.
  induction s as [|c s IH]; [done|].
  change (String c (s +:+ "") = String c s). by rewrite IH.
Qed.

Lemma ReplaceAll_go_sized (fuel : nat) (base new : string) :
  unsized base → (String.length base + 2 < fuel)%nat
  → strings.ReplaceAll_go fuel (base +:+ "%%") "%%" new = base +:+ new.
Proof.
  revert base. induction fuel as [|fuel IH]; intros base Hb Hf; [lia|].
  destruct base as [|c b].
  - change (new +:+ strings.ReplaceAll_go fuel "" "%%" new = new).
    replace (strings.ReplaceAll_go fuel "" "%%" new) with ""
      by (by destruct fuel).
    apply append_empty_r.
  - unfold unsized in Hb. simpl in Hb.
    apply not_elem_of_cons in Hb as [Hc Hb].
    change (strings.ReplaceAll_go (S fuel) (String c b +:+ "%%") "%%" new)
      with (if String.prefix "%%" (String c (b +:+ "%%"))
            then new +:+ strings.ReplaceAll_go fuel
                   (String.substring 2
                      (String.length (String c (b +:+ "%%")) - 2)
                      (String c (b +:+ "%%"))) "%%" new
            else String c (strings.ReplaceAll_go fuel (b +:+ "%%") "%%" new)).
    assert (E : String.prefix "%%" (String c (b +:+ "%%")) = false).
    { by apply prefix_other_head. }
    rewrite E. change (String c b +:+ new) with (String c (b +:+ new)).
    f_equal. apply IH; [done|]. simpl in Hf. lia.
Qed.

(** X22. The cover address and album title that [mapTrack] gives a
    track.  The cover address is empty exactly when the payload has no
    cover; otherwise it is the payload's address behind the https scheme:
    unchanged where it holds no percent sign, and with the size 200x200
    in place of a double percent sign that ends it.  The album title is
    the title of the first album of the payload, and empty where there is
    none. *)
Theorem mapTrack_cover (t : trackDTO) :
  (CoverURL (mapTrack t) = "" ↔ dto_CoverURI t = "")
  ∧ (dto_CoverURI t ≠ "" → unsized (dto_CoverURI t)
     → CoverURL (mapTrack t) = "https://" +:+ dto_CoverURI t)
  ∧ (∀ base, unsized base → dto_CoverURI t = base +:+ "%%"
     → CoverURL (mapTrack t) = "https://" +:+ base +:+ "200x200")
  ∧ (dto_Albums t = [] → AlbumTitle (mapTrack t) = "")
  ∧ (∀ first rest, dto_Albums t = first :: rest
     → AlbumTitle (mapTrack t) = album_Title first).
Proof.
  unfold mapTrack; simpl. split_and!.
  - case_decide; [done|]. split; [discriminate|done].
  - intros Hne Hu. rewrite decide_False by done.
    unfold strings.ReplaceAll. by rewrite ReplaceAll_go_unsized.
  - intros base Hu E. rewrite E.
    rewrite decide_False by (by destruct base).
    unfold strings.ReplaceAll.
    rewrite ReplaceAll_go_sized; [done|done|].
    rewrite string_length_app. simpl. lia.
  - by intros ->.
  - by intros first rest ->.
Qed.
